(** * Qwen QR-code OAuth login (pkg/auth/qwen_oauth.go)

    A shallow embedding of the login flow of [pkg/auth/qwen_oauth.go]:
    PKCE parameters, the grant request, the polling loop, the token
    exchange and the best-effort extraction of the account id.

    Go strings are byte strings; they are modelled by [string], whose
    characters ([ascii]) are bytes.  The functions of Go's standard library
    that the file calls (encoding/base64, encoding/json, strings.Split,
    time) are modelled in the modules [Base64], [Json], [Strings] and
    [GoTime] from their documented behaviour. *)

From Stdlib Require Import ZArith List String Ascii Bool Lia.
Import ListNotations.
Open Scope string_scope.
Open Scope Z_scope.

(** ** Bytes and strings *)

Module Bytes.

Definition byte_of_ascii (c : ascii) : Z := Z.of_N (N_of_ascii c).
Definition ascii_of_byte (b : Z) : ascii := ascii_of_N (Z.to_N (b mod 256)).

Definition bytes_of_string (s : string) : list Z :=
  map byte_of_ascii (list_ascii_of_string s).
Definition string_of_bytes (l : list Z) : string :=
  string_of_list_ascii (map ascii_of_byte l).

(** Test inputs that contain JSON are written with apostrophes; [dq]
    turns every apostrophe into a double quote. *)
Definition quote : ascii := ascii_of_nat 34.
Definition apostrophe : ascii := ascii_of_nat 39.

Fixpoint dq (s : string) : string :=
  match s with
  | EmptyString => EmptyString
  | String c r => String (if Ascii.eqb c apostrophe then quote else c) (dq r)
  end.

End Bytes.
Import Bytes.

(** ** crypto/sha256 (FIPS 180-4), on 32-bit words kept in [Z] *)

Module Sha256.

Definition w32 (x : Z) : Z := x mod 2 ^ 32.
Definition add32 (x y : Z) : Z := w32 (x + y).
Definition rotr (n x : Z) : Z :=
  w32 (Z.lor (Z.shiftr x n) (Z.shiftl x (32 - n))).
Definition not32 (x : Z) : Z := w32 (Z.lnot x).

Definition Ch (x y z : Z) : Z := Z.lxor (Z.land x y) (Z.land (not32 x) z).
Definition Maj (x y z : Z) : Z :=
  Z.lxor (Z.lxor (Z.land x y) (Z.land x z)) (Z.land y z).
Definition bsig0 (x : Z) : Z :=
  Z.lxor (Z.lxor (rotr 2 x) (rotr 13 x)) (rotr 22 x).
Definition bsig1 (x : Z) : Z :=
  Z.lxor (Z.lxor (rotr 6 x) (rotr 11 x)) (rotr 25 x).
Definition ssig0 (x : Z) : Z :=
  Z.lxor (Z.lxor (rotr 7 x) (rotr 18 x)) (Z.shiftr x 3).
Definition ssig1 (x : Z) : Z :=
  Z.lxor (Z.lxor (rotr 17 x) (rotr 19 x)) (Z.shiftr x 10).

(** The constants are the first 32 bits of the fractional parts of the
    cube roots ([K]) and of the square roots ([H0]) of the first primes. *)
Definition isPrime (n : nat) : bool :=
  forallb (fun d => negb (Nat.eqb (Nat.modulo n d) 0)) (seq 2 (n - 2)).

Definition primes (count : nat) : list Z :=
  map Z.of_nat (firstn count (filter isPrime (seq 2 310))).

(** The integer cube root of a number below 2 ^ 108. *)
Definition cbrt (n : Z) : Z :=
  fold_left (fun r b => let c := r + 2 ^ Z.of_nat b in
                        if c * c * c <=? n then c else r)
            (rev (seq 0 36)) 0.

Definition K : list Z :=
  Eval vm_compute in map (fun p => w32 (cbrt (p * 2 ^ 96))) (primes 64).

Definition H0 : list Z :=
  Eval vm_compute in map (fun p => w32 (Z.sqrt (p * 2 ^ 64))) (primes 8).

(** Padding: a 1 bit, zeros up to 56 mod 64 bytes, the length in bits on
    eight bytes, big endian. *)
Definition be_bytes (n : nat) (x : Z) : list Z :=
  map (fun i => Z.shiftr x (8 * Z.of_nat (n - 1 - i)) mod 256) (seq 0 n).

Definition pad (msg : list Z) : list Z :=
  let len := Z.of_nat (List.length msg) in
  let zeros := Z.to_nat ((55 - len) mod 64) in
  msg ++ [0x80] ++ repeat 0 zeros ++ be_bytes 8 (8 * len).

Fixpoint words (fuel : nat) (bs : list Z) : list Z :=
  match fuel, bs with
  | S f, a :: b :: c :: d :: r =>
      (Z.shiftl a 24 + Z.shiftl b 16 + Z.shiftl c 8 + d) :: words f r
  | _, _ => []
  end.

Fixpoint blocks (fuel : nat) (ws : list Z) : list (list Z) :=
  match fuel, ws with
  | S f, _ :: _ => firstn 16 ws :: blocks f (skipn 16 ws)
  | _, _ => []
  end.

(** The message schedule, kept newest first while it is extended. *)
Fixpoint schedule (n : nat) (rev_w : list Z) : list Z :=
  match n with
  | O => rev rev_w
  | S n' =>
      let g i := nth i rev_w 0 in
      let w := add32 (add32 (ssig1 (g 1%nat)) (g 6%nat))
                     (add32 (ssig0 (g 14%nat)) (g 15%nat)) in
      schedule n' (w :: rev_w)
  end.

Definition round (st : list Z) (kw : Z * Z) : list Z :=
  match st with
  | [a; b; c; d; e; f; g; h] =>
      let t1 := add32 (add32 (add32 h (bsig1 e)) (add32 (Ch e f g) (fst kw)))
                      (snd kw) in
      let t2 := add32 (bsig0 a) (Maj a b c) in
      [add32 t1 t2; a; b; c; add32 d t1; e; f; g]
  | _ => st
  end.

Definition compress (h : list Z) (block : list Z) : list Z :=
  let w := schedule 48 (rev block) in
  let st := fold_left round (combine K w) h in
  map (fun p => add32 (fst p) (snd p)) (combine h st).

Definition sum256 (msg : list Z) : list Z :=
  let p := pad msg in
  let ws := words (List.length p) p in
  let h := fold_left compress (blocks (List.length ws) ws) H0 in
  flat_map (be_bytes 4) h.

End Sha256.

(** ** encoding/hex and encoding/base64 *)

Module Hex.

Definition hextable : string := "0123456789abcdef".

Definition digit (x : Z) : ascii :=
  match get (Z.to_nat x) hextable with
  | Some c => c
  | None => "0"%char
  end.

(** [hex.EncodeToString]: two lower-case digits per byte. *)
Fixpoint EncodeToString (src : list Z) : string :=
  match src with
  | [] => EmptyString
  | b :: r => String (digit (b / 16)) (String (digit (b mod 16)) (EncodeToString r))
  end.

End Hex.

Module Base64.

(** An [Encoding] is an alphabet of 64 characters and an optional padding
    character ([None] is [base64.NoPadding]).  Decoding is not strict: the
    unused low bits of the last character are not checked. *)
Record Encoding := mkEncoding { alphabet : string; padChar : option ascii }.

Definition encodeStd : string :=
  "ABCDEFGHIJKLMNOPQRSTUVWXYZabcdefghijklmnopqrstuvwxyz0123456789+/".
Definition encodeURL : string :=
  "ABCDEFGHIJKLMNOPQRSTUVWXYZabcdefghijklmnopqrstuvwxyz0123456789-_".

Definition StdPadding : ascii := "="%char.
Definition StdEncoding : Encoding := mkEncoding encodeStd (Some StdPadding).
Definition URLEncoding : Encoding := mkEncoding encodeURL (Some StdPadding).
Definition WithPadding (enc : Encoding) (p : option ascii) : Encoding :=
  mkEncoding (alphabet enc) p.
Definition NoPadding : option ascii := None.

Definition encodeChar (enc : Encoding) (x : Z) : ascii :=
  match get (Z.to_nat (Z.land x 0x3F)) (alphabet enc) with
  | Some c => c
  | None => "?"%char
  end.

Definition padding (enc : Encoding) (n : nat) : string :=
  match padChar enc with
  | Some p => string_of_list_ascii (repeat p n)
  | None => EmptyString
  end.

(** [Encoding.EncodeToString]: three bytes give four characters; a rest of
    one or two bytes gives two or three characters and the padding. *)
Fixpoint EncodeToString (enc : Encoding) (src : list Z) : string :=
  match src with
  | [] => EmptyString
  | [b0] =>
      let val := Z.shiftl b0 16 in
      String (encodeChar enc (Z.shiftr val 18))
        (String (encodeChar enc (Z.shiftr val 12)) (padding enc 2))
  | [b0; b1] =>
      let val := Z.lor (Z.shiftl b0 16) (Z.shiftl b1 8) in
      String (encodeChar enc (Z.shiftr val 18))
        (String (encodeChar enc (Z.shiftr val 12))
          (String (encodeChar enc (Z.shiftr val 6)) (padding enc 1)))
  | b0 :: b1 :: b2 :: r =>
      let val := Z.lor (Z.lor (Z.shiftl b0 16) (Z.shiftl b1 8)) b2 in
      String (encodeChar enc (Z.shiftr val 18))
        (String (encodeChar enc (Z.shiftr val 12))
          (String (encodeChar enc (Z.shiftr val 6))
            (String (encodeChar enc val) (EncodeToString enc r))))
  end.

(** The decode map: the index of a character in the alphabet. *)
Fixpoint index_of (c : ascii) (s : string) (i : Z) : option Z :=
  match s with
  | EmptyString => None
  | String d r => if Ascii.eqb c d then Some i else index_of c r (i + 1)
  end.

Definition decodeMap (enc : Encoding) (c : ascii) : option Z :=
  index_of c (alphabet enc) 0.

Definition isNewline (c : ascii) : bool :=
  Ascii.eqb c (ascii_of_nat 10) || Ascii.eqb c (ascii_of_nat 13).

Definition isPad (enc : Encoding) (c : ascii) : bool :=
  match padChar enc with
  | Some p => Ascii.eqb c p
  | None => false
  end.

Fixpoint skipNewlines (src : list ascii) : list ascii :=
  match src with
  | c :: r => if isNewline c then skipNewlines r else src
  | [] => []
  end.

(** The bytes of a quantum of [dlen] characters ([dbuf] holds their six-bit
    values): [dlen - 1] bytes. *)
Definition assemble (dbuf : list Z) : list Z :=
  let d i := nth i dbuf 0 in
  let val := Z.lor (Z.lor (Z.lor (Z.shiftl (d 0%nat) 18) (Z.shiftl (d 1%nat) 12))
                          (Z.shiftl (d 2%nat) 6)) (d 3%nat) in
  firstn (List.length dbuf - 1)
    [Z.shiftr val 16 mod 256; Z.shiftr val 8 mod 256; val mod 256].

(** [Encoding.DecodeString], the loop over [decodeQuantum]: [dbuf] holds
    the characters of the current quantum.  Newlines and carriage returns
    are skipped; with padding, the input ends in a full quantum or in a
    padded one, followed by nothing but newlines. *)
Fixpoint decodeLoop (enc : Encoding) (dbuf : list Z) (src : list ascii)
  : option (list Z) :=
  match src with
  | [] =>
      match dbuf with
      | [] => Some []
      | [_] => None
      | _ => match padChar enc with
             | Some _ => None
             | None => Some (assemble dbuf)
             end
      end
  | c :: rest =>
      match decodeMap enc c with
      | Some out =>
          match dbuf with
          | [_; _; _] =>
              match decodeLoop enc [] rest with
              | Some tl => Some (assemble (dbuf ++ [out]) ++ tl)%list
              | None => None
              end
          | _ => decodeLoop enc (dbuf ++ [out])%list rest
          end
      | None =>
          if isNewline c then decodeLoop enc dbuf rest
          else if isPad enc c then
            match dbuf with
            | [_; _] =>
                match skipNewlines rest with
                | p :: rest' =>
                    if isPad enc p then
                      match skipNewlines rest' with
                      | [] => Some (assemble dbuf)
                      | _ :: _ => None
                      end
                    else None
                | [] => None
                end
            | [_; _; _] =>
                match skipNewlines rest with
                | [] => Some (assemble dbuf)
                | _ :: _ => None
                end
            | _ => None
            end
          else None
      end
  end.

Definition DecodeString (enc : Encoding) (s : string) : option (list Z) :=
  decodeLoop enc [] (list_ascii_of_string s).

End Base64.

(** ** strings.Split with a separator of one character *)

Module Strings.

Fixpoint splitAcc (sep : ascii) (cur : string) (s : string) : list string :=
  match s with
  | EmptyString => [cur]
  | String c r =>
      if Ascii.eqb c sep then cur :: splitAcc sep EmptyString r
      else splitAcc sep (cur ++ String c EmptyString) r
  end.

Definition Split (s : string) (sep : ascii) : list string :=
  splitAcc sep EmptyString s.

End Strings.

(** ** encoding/json

    [Unmarshal] first checks that the whole input is one JSON value (RFC
    8259) surrounded by white space, then stores it.  Values are kept as
    trees; numbers keep their literal.  String literals are unquoted as Go
    does: escapes are replaced, [\u] escapes are written in UTF-8 (a lone
    surrogate becomes U+FFFD), bytes that are not well-formed UTF-8 become
    U+FFFD.  The parser works on bytes. *)

Module Json.

#[warnings="-register-all"]
Inductive Value : Type :=
| Null
| Bool (b : bool)
| Number (lit : string)
| Str (s : string)
| Array (elems : list Value)
| Object (members : list (string * Value)).

Definition isSpace (c : Z) : bool :=
  (c =? 32) || (c =? 9) || (c =? 13) || (c =? 10).

Fixpoint skipSpace (s : list Z) : list Z :=
  match s with
  | c :: r => if isSpace c then skipSpace r else s
  | [] => []
  end.

Definition isDigit (c : Z) : bool := (48 <=? c) && (c <=? 57).

Definition hexVal (c : Z) : option Z :=
  if isDigit c then Some (c - 48)
  else if (97 <=? c) && (c <=? 102) then Some (c - 87)
  else if (65 <=? c) && (c <=? 70) then Some (c - 55)
  else None.

Definition getu4 (a b c d : Z) : option Z :=
  match hexVal a, hexVal b, hexVal c, hexVal d with
  | Some x, Some y, Some z, Some w => Some (((x * 16 + y) * 16 + z) * 16 + w)
  | _, _, _, _ => None
  end.

Definition runeError : list Z := [0xEF; 0xBF; 0xBD].

(** [utf8.EncodeRune] *)
Definition encodeRune (r : Z) : list Z :=
  if r <=? 0x7F then [r]
  else if r <=? 0x7FF then [0xC0 + r / 64; 0x80 + r mod 64]
  else if ((0xD800 <=? r) && (r <=? 0xDFFF)) || (0x10FFFF <? r) then runeError
  else if r <=? 0xFFFF then
    [0xE0 + r / 4096; 0x80 + (r / 64) mod 64; 0x80 + r mod 64]
  else
    [0xF0 + r / 262144; 0x80 + (r / 4096) mod 64;
     0x80 + (r / 64) mod 64; 0x80 + r mod 64].

Definition isSurrogate (r : Z) : bool := (0xD800 <=? r) && (r <? 0xE000).

(** [utf16.DecodeRune]: [None] stands for the replacement character. *)
Definition decodePair (r1 r2 : Z) : option Z :=
  if (0xD800 <=? r1) && (r1 <? 0xDC00) && (0xDC00 <=? r2) && (r2 <? 0xE000)
  then Some ((r1 - 0xD800) * 1024 + (r2 - 0xDC00) + 0x10000)
  else None.

Definition cont (c : Z) : bool := (0x80 <=? c) && (c <=? 0xBF).

(** The length of the well-formed UTF-8 sequence that starts with the
    byte [c0 >= 0x80], followed by [r]; 1 when there is none, and the byte
    is then replaced by U+FFFD. *)
Definition utf8Size (c0 : Z) (r : list Z) : nat :=
  if (0xC2 <=? c0) && (c0 <=? 0xDF) then
    match r with
    | c1 :: _ => if cont c1 then 2 else 1
    | _ => 1
    end
  else if (0xE0 <=? c0) && (c0 <=? 0xEF) then
    match r with
    | c1 :: c2 :: _ =>
        let lo := if c0 =? 0xE0 then 0xA0 else 0x80 in
        let hi := if c0 =? 0xED then 0x9F else 0xBF in
        if (lo <=? c1) && (c1 <=? hi) && cont c2 then 3 else 1
    | _ => 1
    end
  else if (0xF0 <=? c0) && (c0 <=? 0xF4) then
    match r with
    | c1 :: c2 :: c3 :: _ =>
        let lo := if c0 =? 0xF0 then 0x90 else 0x80 in
        let hi := if c0 =? 0xF4 then 0x8F else 0xBF in
        if (lo <=? c1) && (c1 <=? hi) && cont c2 && cont c3 then 4 else 1
    | _ => 1
    end
  else 1%nat.

Definition escaped (c : Z) : option Z :=
  match c with
  | 34 => Some 34   (* quote *)
  | 92 => Some 92   (* backslash *)
  | 47 => Some 47   (* slash *)
  | 98 => Some 8    (* b *)
  | 102 => Some 12  (* f *)
  | 110 => Some 10  (* n *)
  | 114 => Some 13  (* r *)
  | 116 => Some 9   (* t *)
  | _ => None
  end.

(** The rest of a string literal, after its opening quote: the unquoted
    bytes and the input after the closing quote. *)
Fixpoint stringLit (s : list Z) : option (list Z * list Z) :=
  let more (out : list Z) (r : option (list Z * list Z)) :=
    match r with
    | Some (o, rest) => Some ((out ++ o)%list, rest)
    | None => None
    end in
  match s with
  | [] => None
  | 34 :: r => Some ([], r)
  | 92 :: 117 :: a :: b :: c :: d :: r =>
      match getu4 a b c d with
      | None => None
      | Some rr =>
          if isSurrogate rr then
            match r with
            | 92 :: 117 :: a' :: b' :: c' :: d' :: r' =>
                match getu4 a' b' c' d' with
                | Some rr1 =>
                    match decodePair rr rr1 with
                    | Some dec => more (encodeRune dec) (stringLit r')
                    | None => more runeError (stringLit r)
                    end
                | None => more runeError (stringLit r)
                end
            | _ => more runeError (stringLit r)
            end
          else more (encodeRune rr) (stringLit r)
      end
  | 92 :: e :: r =>
      match escaped e with
      | Some c => more [c] (stringLit r)
      | None => None
      end
  | [92] => None
  | c :: r =>
      if c <? 32 then None
      else if c <? 0x80 then more [c] (stringLit r)
      else
        match utf8Size c r, r with
        | 2%nat, c1 :: r1 => more [c; c1] (stringLit r1)
        | 3%nat, c1 :: c2 :: r2 => more [c; c1; c2] (stringLit r2)
        | 4%nat, c1 :: c2 :: c3 :: r3 => more [c; c1; c2; c3] (stringLit r3)
        | _, _ => more runeError (stringLit r)
        end
  end.

Fixpoint digits (s : list Z) : list Z * list Z :=
  match s with
  | c :: r => if isDigit c then let (d, rest) := digits r in (c :: d, rest)
              else ([], s)
  | [] => ([], [])
  end.

(** A number literal: an optional minus sign; 0, or a non-zero digit and
    digits; an optional fraction (a dot and at least one digit); an optional
    exponent (e or E, an optional sign, at least one digit). *)
Definition numberLit (s : list Z) : option (list Z * list Z) :=
  let (sign, s1) := match s with 45 :: r => ([45], r) | _ => ([], s) end in
  match s1 with
  | [] => None
  | c :: r1 =>
      let int_part :=
        if c =? 48 then Some ([48], r1)
        else if isDigit c then let (d, rest) := digits r1 in Some (c :: d, rest)
        else None in
      match int_part with
      | None => None
      | Some (ip, s2) =>
          let frac_part :=
            match s2 with
            | 46 :: r2 =>
                match digits r2 with
                | ([], _) => None
                | (d, rest) => Some (46 :: d, rest)
                end
            | _ => Some ([], s2)
            end in
          match frac_part with
          | None => None
          | Some (fp, s3) =>
              let exp_part :=
                match s3 with
                | e :: r3 =>
                    if (e =? 101) || (e =? 69) then
                      let (sg, r4) :=
                        match r3 with
                        | g :: r' => if (g =? 43) || (g =? 45) then ([g], r')
                                     else ([], r3)
                        | [] => ([], r3)
                        end in
                      match digits r4 with
                      | ([], _) => None
                      | (d, rest) => Some (e :: sg ++ d, rest)
                      end
                    else Some ([], s3)
                | [] => Some ([], s3)
                end in
              match exp_part with
              | None => None
              | Some (ep, s4) => Some (sign ++ ip ++ fp ++ ep, s4)
              end
          end
      end
  end%list.

(** One value, with [fuel] bounding the nesting and the number of members
    read. *)
Fixpoint value (fuel : nat) (s : list Z) : option (Value * list Z) :=
  match fuel with
  | O => None
  | S f =>
      match skipSpace s with
      | 123 :: r =>
          match skipSpace r with
          | 125 :: r' => Some (Object [], r')
          | r' => match members f r' with
                  | Some (ms, rest) => Some (Object ms, rest)
                  | None => None
                  end
          end
      | 91 :: r =>
          match skipSpace r with
          | 93 :: r' => Some (Array [], r')
          | r' => match elements f r' with
                  | Some (es, rest) => Some (Array es, rest)
                  | None => None
                  end
          end
      | 34 :: r =>
          match stringLit r with
          | Some (str, rest) => Some (Str (string_of_bytes str), rest)
          | None => None
          end
      | 116 :: 114 :: 117 :: 101 :: r => Some (Bool true, r)
      | 102 :: 97 :: 108 :: 115 :: 101 :: r => Some (Bool false, r)
      | 110 :: 117 :: 108 :: 108 :: r => Some (Null, r)
      | s' =>
          match numberLit s' with
          | Some (lit, rest) => Some (Number (string_of_bytes lit), rest)
          | None => None
          end
      end
  end
with members (fuel : nat) (s : list Z) : option (list (string * Value) * list Z) :=
  match fuel with
  | O => None
  | S f =>
      match skipSpace s with
      | 34 :: r =>
          match stringLit r with
          | Some (key, r1) =>
              match skipSpace r1 with
              | 58 :: r2 =>
                  match value f r2 with
                  | Some (v, r3) =>
                      match skipSpace r3 with
                      | 44 :: r4 =>
                          match members f r4 with
                          | Some (ms, rest) =>
                              Some ((string_of_bytes key, v) :: ms, rest)
                          | None => None
                          end
                      | 125 :: r4 => Some ([(string_of_bytes key, v)], r4)
                      | _ => None
                      end
                  | None => None
                  end
              | _ => None
              end
          | None => None
          end
      | _ => None
      end
  end
with elements (fuel : nat) (s : list Z) : option (list Value * list Z) :=
  match fuel with
  | O => None
  | S f =>
      match value f s with
      | Some (v, r1) =>
          match skipSpace r1 with
          | 44 :: r2 =>
              match elements f r2 with
              | Some (es, rest) => Some (v :: es, rest)
              | None => None
              end
          | 93 :: r2 => Some ([v], r2)
          | _ => None
          end
      | None => None
      end
  end.

(** The whole input as one value; [None] is a syntax error.  A turn of
    [value], [members] or [elements] that calls another one has read a
    character or hands over to one that reads one, so the fuel is not used
    up.  (Go gives up at a nesting of 10000, which is not modelled.) *)
Definition parse (data : string) : option Value :=
  let bs := bytes_of_string data in
  match value (2 * List.length bs + 2) bs with
  | Some (v, rest) =>
      match skipSpace rest with
      | [] => Some v
      | _ :: _ => None
      end
  | None => None
  end.

(** *** Storing a value

    A type mismatch makes [Unmarshal] return an error (after it has gone
    through the rest of the input); [None] stands for any error. *)

(** A JSON string into a [string]; [null] leaves the field as it is. *)
Definition storeString (v : Value) (cur : string) : option string :=
  match v with
  | Str s => Some s
  | Null => Some cur
  | _ => None
  end.

Definition minInt64 : Z := - 2 ^ 63.
Definition maxInt64 : Z := 2 ^ 63 - 1.

Fixpoint digitsValue (acc : Z) (s : list Z) : option Z :=
  match s with
  | [] => Some acc
  | c :: r => if isDigit c then digitsValue (acc * 10 + (c - 48)) r else None
  end.

(** [strconv.ParseInt(lit, 10, 64)] on a number literal: a literal with a
    fraction or an exponent, or out of range, is an error. *)
Definition parseInt (lit : string) : option Z :=
  let bs := bytes_of_string lit in
  let (neg, ds) := match bs with 45 :: r => (true, r) | _ => (false, bs) end in
  match ds with
  | [] => None
  | _ :: _ =>
      match digitsValue 0 ds with
      | Some n =>
          let x := if neg then - n else n in
          if (minInt64 <=? x) && (x <=? maxInt64) then Some x else None
      | None => None
      end
  end.

(** A JSON number into an [int] (64 bits). *)
Definition storeInt (v : Value) (cur : Z) : option Z :=
  match v with
  | Number lit => parseInt lit
  | Null => Some cur
  | _ => None
  end.

(** Keys are matched with field names without regard to the case of ASCII
    letters. *)
Definition lower (c : ascii) : ascii :=
  let b := byte_of_ascii c in
  if (65 <=? b) && (b <=? 90) then ascii_of_byte (b + 32) else c.

Fixpoint foldName (s : string) : string :=
  match s with
  | EmptyString => EmptyString
  | String c r => String (lower c) (foldName r)
  end.

Definition fieldMatch (key name : string) : bool :=
  String.eqb (foldName key) (foldName name).

(** A JSON object into a struct: the members are stored one after the
    other by [field], which ignores the keys it does not know; [null]
    leaves the struct as it is. *)
Definition storeStruct {T : Type} (field : T -> string -> Value -> option T)
  (v : Value) (cur : T) : option T :=
  match v with
  | Object ms =>
      fold_left (fun acc kv =>
                   match acc with
                   | Some t => field t (fst kv) (snd kv)
                   | None => None
                   end) ms (Some cur)
  | Null => Some cur
  | _ => None
  end.

Definition UnmarshalStruct {T : Type} (field : T -> string -> Value -> option T)
  (data : string) (zero : T) : option T :=
  match parse data with
  | Some v => storeStruct field v zero
  | None => None
  end.

(** [map[string]interface{}]: keys are unique, a later member replaces an
    earlier one with the same key. *)
Definition Map : Type := list (string * Value).

Fixpoint lookup (k : string) (m : Map) : option Value :=
  match m with
  | [] => None
  | (k', v) :: r => if String.eqb k k' then Some v else lookup k r
  end.

Fixpoint insert (k : string) (v : Value) (m : Map) : Map :=
  match m with
  | [] => [(k, v)]
  | (k', v') :: r =>
      if String.eqb k k' then (k, v) :: r else (k', v') :: insert k v r
  end.

(** Into a nil map: an object fills a new map, [null] leaves it nil (a
    lookup in a nil map finds nothing), anything else is an error. *)
Definition UnmarshalMap (data : string) : option Map :=
  match parse data with
  | Some (Object ms) =>
      Some (fold_left (fun m kv => insert (fst kv) (snd kv) m) ms [])
  | Some Null => Some []
  | _ => None
  end.

End Json.

(** ** time: durations are 64-bit counts of nanoseconds, instants are counted
    in nanoseconds from the zero [Time] (January 1 of year 1) *)

Module GoTime.

Definition Duration : Type := Z.

Definition wrap64 (x : Z) : Z := (x + 2 ^ 63) mod 2 ^ 64 - 2 ^ 63.

Definition Second : Duration := 1000000000.
Definition Minute : Duration := 60 * Second.

(** The product of two [Duration]s, as [int64] multiplication. *)
Definition mul (a b : Duration) : Duration := wrap64 (a * b).

Definition Time : Type := Z.
Definition zeroTime : Time := 0.

(** [Time.Add]; exact for the instants and durations that occur here. *)
Definition Add (t : Time) (d : Duration) : Time := t + d.

End GoTime.

(** * pkg/auth/qwen_oauth.go *)

Import Json.

(** ** Data *)

Record QRCodeData := mkQRCodeData {
  QrCodeUrl : string;
  QrCodeId : string;
  RedirectUri : string;
  qr_RefreshToken : string
}.

Record QwenQRCodeResponse := mkQwenQRCodeResponse {
  qr_Code : string;
  qr_Message : string;
  qr_Data : QRCodeData
}.

Record QwenTokenResponse := mkQwenTokenResponse {
  AccessToken : string;
  RefreshToken : string;
  ExpiresIn : Z;
  TokenType : string
}.

(** The anonymous struct [statusResp] of [checkQwenScanStatus]. *)
Record StatusData := mkStatusData {
  Status : string;
  st_AuthCode : string
}.

Record StatusResponse := mkStatusResponse {
  st_Code : string;
  st_Message : string;
  st_Data : StatusData
}.

(** Modelled from the spec: the struct [AuthCredential] is declared in a
    file of package auth that is not under src/; its fields are the ones
    [exchangeQwenCodeForToken] sets, with the types spec section 3 gives
    the Credential ([ExpiresAt] zero means that it does not expire). *)
Record AuthCredential := mkAuthCredential {
  cred_AccessToken : string;
  cred_RefreshToken : string;
  cred_ExpiresAt : GoTime.Time;
  cred_Provider : string;
  cred_AuthMethod : string;
  cred_AccountID : string
}.

(** The errors of the file, one constructor for each place that makes one. *)
Inductive Error : Type :=
| ErrRand                           (* rand.Read *)
| ErrTransport                      (* http.NewRequest, client.Do, http.Get, http.Post, io.ReadAll *)
| ErrUnmarshal                      (* json.Unmarshal, returned as it is *)
| ErrQRCodeParse (body : string)    (* getQwenQRCode: the response does not parse *)
| ErrAuthCodeEmpty                  (* checkQwenScanStatus: AUTHORIZED without a code *)
| ErrExpiredOrCanceled              (* checkQwenScanStatus: EXPIRED or CANCELED *)
| ErrTokenStatus (body : string)    (* exchangeQwenCodeForToken: status is not 200 *)
| ErrNoAccessToken                  (* exchangeQwenCodeForToken: empty access_token *)
| ErrScanTimeout                    (* LoginQwenQRCode: the deadline fired *)
| ErrWrap (context : string) (e : Error).  (* fmt.Errorf with %w *)

(** A Go result, a pointer with an error: the pointer may be nil and the
    error may be nil. *)
Definition Result (T : Type) : Type := (option T * option Error)%type.
Definition ok {T : Type} (x : T) : Result T := (Some x, None).
Definition fail {T : Type} (e : Error) : Result T := (None, Some e).
Definition nothing {T : Type} : Result T := (None, None).

(** ** The world outside: randomness, the authorization server, clocks *)

Inductive HttpReply : Type :=
| NoReply                                       (* a transport error, or the body cannot be read *)
| Response (StatusCode : Z) (Body : string)
| NoAnswer.                                     (* the request is never answered: only a timeout of the client ends it *)

Definition StatusOK : Z := 200.

Record World := mkWorld {
  (** the bytes [rand.Read] puts into the 32-byte buffer of its n-th call,
      or its failure *)
  randRead : nat -> option (list Z);
  (** the reply to the GET of the grant, by URL *)
  getQRCode : string -> HttpReply;
  (** the reply to the GET of the status in the n-th poll, by URL *)
  getStatus : nat -> string -> HttpReply;
  (** the reply to the POST of the n-th poll to the token endpoint, by form *)
  postToken : nat -> string -> HttpReply;
  (** what [time.Now] returns in the n-th poll *)
  timeNow : nat -> GoTime.Time;
  (** how long the n-th call of [checkQwenScanStatus] takes when it returns,
      in nanoseconds *)
  pollDuration : nat -> N;
  (** the case the n-th [select] takes when both channels are ready:
      [true] is the deadline *)
  selectDeadline : nat -> bool
}.

(** ** Decoding the responses *)

Definition zeroQRCodeData : QRCodeData := mkQRCodeData "" "" "" "".
Definition zeroQRCodeResponse : QwenQRCodeResponse :=
  mkQwenQRCodeResponse "" "" zeroQRCodeData.
Definition zeroTokenResponse : QwenTokenResponse :=
  mkQwenTokenResponse "" "" 0 "".
Definition zeroStatusData : StatusData := mkStatusData "" "".
Definition zeroStatusResponse : StatusResponse :=
  mkStatusResponse "" "" zeroStatusData.

Definition qrDataField (d : QRCodeData) (key : string) (v : Value)
  : option QRCodeData :=
  if fieldMatch key "qrCodeUrl" then
    option_map (fun s => mkQRCodeData s (QrCodeId d) (RedirectUri d) (qr_RefreshToken d))
               (storeString v (QrCodeUrl d))
  else if fieldMatch key "qrCodeId" then
    option_map (fun s => mkQRCodeData (QrCodeUrl d) s (RedirectUri d) (qr_RefreshToken d))
               (storeString v (QrCodeId d))
  else if fieldMatch key "redirectUri" then
    option_map (fun s => mkQRCodeData (QrCodeUrl d) (QrCodeId d) s (qr_RefreshToken d))
               (storeString v (RedirectUri d))
  else if fieldMatch key "refreshToken" then
    option_map (fun s => mkQRCodeData (QrCodeUrl d) (QrCodeId d) (RedirectUri d) s)
               (storeString v (qr_RefreshToken d))
  else Some d.

Definition qrResponseField (r : QwenQRCodeResponse) (key : string) (v : Value)
  : option QwenQRCodeResponse :=
  if fieldMatch key "code" then
    option_map (fun s => mkQwenQRCodeResponse s (qr_Message r) (qr_Data r))
               (storeString v (qr_Code r))
  else if fieldMatch key "message" then
    option_map (fun s => mkQwenQRCodeResponse (qr_Code r) s (qr_Data r))
               (storeString v (qr_Message r))
  else if fieldMatch key "data" then
    option_map (fun d => mkQwenQRCodeResponse (qr_Code r) (qr_Message r) d)
               (storeStruct qrDataField v (qr_Data r))
  else Some r.

Definition tokenResponseField (t : QwenTokenResponse) (key : string) (v : Value)
  : option QwenTokenResponse :=
  if fieldMatch key "access_token" then
    option_map (fun s => mkQwenTokenResponse s (RefreshToken t) (ExpiresIn t) (TokenType t))
               (storeString v (AccessToken t))
  else if fieldMatch key "refresh_token" then
    option_map (fun s => mkQwenTokenResponse (AccessToken t) s (ExpiresIn t) (TokenType t))
               (storeString v (RefreshToken t))
  else if fieldMatch key "expires_in" then
    option_map (fun n => mkQwenTokenResponse (AccessToken t) (RefreshToken t) n (TokenType t))
               (storeInt v (ExpiresIn t))
  else if fieldMatch key "token_type" then
    option_map (fun s => mkQwenTokenResponse (AccessToken t) (RefreshToken t) (ExpiresIn t) s)
               (storeString v (TokenType t))
  else Some t.

Definition statusDataField (d : StatusData) (key : string) (v : Value)
  : option StatusData :=
  if fieldMatch key "status" then
    option_map (fun s => mkStatusData s (st_AuthCode d)) (storeString v (Status d))
  else if fieldMatch key "code" then
    option_map (fun s => mkStatusData (Status d) s) (storeString v (st_AuthCode d))
  else Some d.

Definition statusResponseField (r : StatusResponse) (key : string) (v : Value)
  : option StatusResponse :=
  if fieldMatch key "code" then
    option_map (fun s => mkStatusResponse s (st_Message r) (st_Data r))
               (storeString v (st_Code r))
  else if fieldMatch key "message" then
    option_map (fun s => mkStatusResponse (st_Code r) s (st_Data r))
               (storeString v (st_Message r))
  else if fieldMatch key "data" then
    option_map (fun d => mkStatusResponse (st_Code r) (st_Message r) d)
               (storeStruct statusDataField v (st_Data r))
  else Some r.

Definition unmarshalQRCodeResponse (body : string) : option QwenQRCodeResponse :=
  UnmarshalStruct qrResponseField body zeroQRCodeResponse.
Definition unmarshalTokenResponse (body : string) : option QwenTokenResponse :=
  UnmarshalStruct tokenResponseField body zeroTokenResponse.
Definition unmarshalStatusResponse (body : string) : option StatusResponse :=
  UnmarshalStruct statusResponseField body zeroStatusResponse.

(** ** PKCE parameters *)

(** [generateQwenState]: 32 random bytes in hexadecimal. *)
Definition generateQwenState (w : World) (n : nat) : string * option Error :=
  match randRead w n with
  | None => ("", Some ErrRand)
  | Some buf => (Hex.EncodeToString buf, None)
  end.

Definition base64URLEncode (input : list Z) : string :=
  Base64.EncodeToString
    (Base64.WithPadding Base64.URLEncoding Base64.NoPadding) input.

(** [generateCodeVerifier]: 32 random bytes in URL-safe base64. *)
Definition generateCodeVerifier (w : World) (n : nat) : string * option Error :=
  match randRead w n with
  | None => ("", Some ErrRand)
  | Some bytes => (base64URLEncode bytes, None)
  end.

(** [generateCodeChallenge] returns its argument; its comment says that a
    SHA-256 hash should be taken here and that this is a simplification. *)
Definition generateCodeChallenge (verifier : string) : string := verifier.

(** What spec section 4.2 asks of the challenge (method S256 of RFC 7636). *)
Definition spec_codeChallenge (verifier : string) : string :=
  base64URLEncode (Sha256.sum256 (bytes_of_string verifier)).

(** ** The account id in an access token *)

Definition addPadding (payload : string) : string :=
  match (String.length payload mod 4)%nat with
  | 2%nat => payload ++ "=="
  | 3%nat => payload ++ "="
  | _ => payload
  end.

(** The first part of [extractQwenAccountID], up to the map [claims]:
    [None] stands for each of its early returns of the empty string. *)
Definition decodeClaims (accessToken : string) : option Map :=
  let parts := Strings.Split accessToken "."%char in
  if (List.length parts <? 2)%nat then None
  else
    let payload := addPadding (nth 1 parts "") in
    match Base64.DecodeString Base64.StdEncoding payload with
    | None => None
    | Some decoded => UnmarshalMap (string_of_bytes decoded)
    end.

Definition extractQwenAccountID (accessToken : string) : string :=
  match decodeClaims accessToken with
  | None => ""
  | Some claims =>
      match lookup "sub" claims with
      | Some (Str sub) => sub
      | _ => ""
      end
  end.

(** ** The token exchange *)

(** The form that is posted to the token endpoint. *)
Definition tokenForm (code codeVerifier state : string) : string :=
  "grant_type=authorization_code&code=" ++ code
  ++ "&redirect_uri=oob&client_id=qwen_cli_app&code_verifier=" ++ codeVerifier
  ++ "&state=" ++ state.

(** [http.Post] is called on the default client, which has no timeout: a
    request that is never answered never returns, and the exchange with
    it. *)
Definition exchangeReturns (w : World) (n : nat)
  (code codeVerifier state : string) : bool :=
  match postToken w n (tokenForm code codeVerifier state) with
  | NoAnswer => false
  | _ => true
  end.

(** What the exchange returns, when it returns ([exchangeReturns]).  A
    call that returns gives a credential or an error, never neither:
    [nothing] stands for the call that does not return. *)
Definition exchangeQwenCodeForToken (w : World) (n : nat)
  (code codeVerifier state : string) : Result AuthCredential :=
  let data := tokenForm code codeVerifier state in
  match postToken w n data with
  | NoAnswer => nothing                         (* the call does not return *)
  | NoReply => fail ErrTransport
  | Response StatusCode body =>
      if negb (StatusCode =? StatusOK) then fail (ErrTokenStatus body)
      else
        match unmarshalTokenResponse body with
        | None => fail ErrUnmarshal
        | Some tokenResp =>
            if String.eqb (AccessToken tokenResp) "" then fail ErrNoAccessToken
            else
              let expiresAt :=
                if 0 <? ExpiresIn tokenResp then
                  GoTime.Add (timeNow w n)
                             (GoTime.mul (ExpiresIn tokenResp) GoTime.Second)
                else GoTime.zeroTime in
              let accountID := extractQwenAccountID (AccessToken tokenResp) in
              ok (mkAuthCredential (AccessToken tokenResp)
                                   (RefreshToken tokenResp)
                                   expiresAt "qwen" "oauth"
                                   (if String.eqb accountID "" then ""
                                    else accountID))
        end
  end.

(** ** The grant and its status *)

(** The URL of the grant request, with its parameters. *)
Definition qrCodeURL (state codeChallenge : string) : string :=
  let url := "https://oauth.aliyun.com/v1/oauth/qrcode" in
  let params :=
    "response_type=code&client_id=qwen_cli_app&state=" ++ state
    ++ "&code_challenge=" ++ codeChallenge
    ++ "&code_challenge_method=S256&scope=openid+profile+email" in
  url ++ "?" ++ params.

(** The request of the grant is made on a client with a timeout of 30
    seconds: a request that is never answered ends in an error. *)
Definition getQwenQRCode (w : World) (state codeChallenge : string)
  : Result QwenQRCodeResponse :=
  match getQRCode w (qrCodeURL state codeChallenge) with
  | NoReply | NoAnswer => fail ErrTransport
  | Response _ body =>
      match unmarshalQRCodeResponse body with
      | None => fail (ErrQRCodeParse body)
      | Some qrResp => ok qrResp
      end
  end.

Definition statusURL (qrCodeId : string) : string :=
  "https://oauth.aliyun.com/v1/oauth/qrcode/status?id=" ++ qrCodeId.

(** [http.Get] is called on the default client, which has no timeout: the
    check does not return when its request is never answered, or when it
    goes on to an exchange that does not return. *)
Definition checkReturns (w : World) (n : nat)
  (qrCodeId state codeVerifier : string) : bool :=
  match getStatus w n (statusURL qrCodeId) with
  | NoAnswer => false
  | NoReply => true
  | Response _ body =>
      match unmarshalStatusResponse body with
      | None => true
      | Some statusResp =>
          if String.eqb (Status (st_Data statusResp)) "AUTHORIZED" then
            if String.eqb (st_AuthCode (st_Data statusResp)) "" then true
            else exchangeReturns w n (st_AuthCode (st_Data statusResp))
                                 codeVerifier state
          else true
      end
  end.

(** What the check returns, when it returns ([checkReturns]): the loop
    asks [checkReturns] before it looks at this result. *)
Definition checkQwenScanStatus (w : World) (n : nat)
  (qrCodeId state codeVerifier : string) : Result AuthCredential :=
  let url := statusURL qrCodeId in
  match getStatus w n url with
  | NoAnswer => nothing                         (* the call does not return *)
  | NoReply => fail ErrTransport
  | Response _ body =>
      match unmarshalStatusResponse body with
      | None => fail ErrUnmarshal
      | Some statusResp =>
          let status := Status (st_Data statusResp) in
          if String.eqb status "AUTHORIZED" then
            if String.eqb (st_AuthCode (st_Data statusResp)) "" then
              fail ErrAuthCodeEmpty
            else
              exchangeQwenCodeForToken w n (st_AuthCode (st_Data statusResp))
                                       codeVerifier state
          else if String.eqb status "EXPIRED" || String.eqb status "CANCELED" then
            fail ErrExpiredOrCanceled
          else nothing
      end
  end.

(** ** The polling loop

    The clock of the loop counts nanoseconds from the instant at which the
    two timers are made.  [time.After] makes its channel ready at
    [pollDeadline] and it stays ready; the ticker sends at every multiple
    of [pollInterval] into a channel that holds one tick, and a tick that
    finds the channel full is dropped.  [select] blocks until a channel is
    ready; when both are, the world chooses.  A status check runs inside its
    case of the [select]: nothing interrupts it, and a check that does not
    return keeps the loop in it for ever. *)

Definition pollInterval : Z := 3 * GoTime.Second.
Definition pollDeadline : Z := 10 * GoTime.Minute.

Record LoopState := mkLoopState {
  now : Z;          (* the clock *)
  tickReady : bool; (* a tick waits in the channel of the ticker *)
  polls : list Z    (* the instants of the status checks made, newest first *)
}.

Definition loopStart : LoopState := mkLoopState 0 false [].

(** The first tick after the instant [t]. *)
Definition nextTick (t : Z) : Z := (t / pollInterval + 1) * pollInterval.

(** [select] waits until one of the channels is ready. *)
Definition await (st : LoopState) : LoopState :=
  if tickReady st || (pollDeadline <=? now st) then st
  else if nextTick (now st) <=? pollDeadline
       then mkLoopState (nextTick (now st)) true (polls st)
       else mkLoopState pollDeadline false (polls st).

Inductive Step : Type :=
| Continue (st : LoopState)
| Return (r : Result AuthCredential) (st : LoopState)
| Stuck (st : LoopState).   (* in a status check that does not return *)

Definition stateOf (s : Step) : LoopState :=
  match s with
  | Continue st => st
  | Return _ st => st
  | Stuck st => st
  end.

(** The case that the [select] of a turn takes: [true] is the deadline.  The
    deadline is taken when it is the only channel that is ready, or when
    both are and the world chooses it. *)
Definition timesOut (w : World) (st : LoopState) : bool :=
  let st1 := await st in
  (pollDeadline <=? now st1)
  && (negb (tickReady st1) || selectDeadline w (List.length (polls st1))).

(** The state in which the n-th check leaves the loop, when it is made from
    the state [st1] that [select] has waited for: the tick is taken, the
    clock moves by the time the check takes, and a tick waits if one has
    been sent in the meantime. *)
Definition afterPoll (w : World) (st1 : LoopState) : LoopState :=
  let n := List.length (polls st1) in
  let t := now st1 + Z.of_N (pollDuration w n) in
  mkLoopState t (now st1 / pollInterval <? t / pollInterval)
              (now st1 :: polls st1).

(** The state in which a check that does not return holds the loop: the
    tick is taken and the check is begun. *)
Definition startPoll (st1 : LoopState) : LoopState :=
  mkLoopState (now st1) false (now st1 :: polls st1).

(** One turn of the [for] loop: the [select] and the case it takes. *)
Definition iteration (w : World) (qrCodeId state codeVerifier : string)
  (st : LoopState) : Step :=
  let st1 := await st in
  if timesOut w st then Return (fail ErrScanTimeout) st1
  else
    let n := List.length (polls st1) in
    if checkReturns w n qrCodeId state codeVerifier then
      match checkQwenScanStatus w n qrCodeId state codeVerifier with
      | (_, Some _) => Continue (afterPoll w st1)
      | (Some cred, None) => Return (ok cred) (afterPoll w st1)
      | (None, None) => Continue (afterPoll w st1)
      end
    else Stuck (startPoll st1).

(** The loop, for at most [fuel] turns: [Continue] is a loop that has not
    returned yet, [Stuck] one that will never return. *)
Fixpoint pollLoop (w : World) (qrCodeId state codeVerifier : string)
  (fuel : nat) (st : LoopState) : Step :=
  match fuel with
  | O => Continue st
  | S fuel' =>
      match iteration w qrCodeId state codeVerifier st with
      | Continue st' => pollLoop w qrCodeId state codeVerifier fuel' st'
      | Return r st' => Return r st'
      | Stuck st' => Stuck st'
      end
  end.

(** ** The login

    What is printed and the attempt to open a browser (its failure is
    ignored) do not act on the result and are left out.  [Polling] is a
    login that is still in its loop after [fuel] turns, [Hangs] a login
    whose loop is in a status check that does not return. *)

Inductive LoginOutcome : Type :=
| Polling
| Done (r : Result AuthCredential)
| NilDereference   (* a nil response without an error; getQwenQRCode returns none *)
| Hangs.

Definition LoginQwenQRCode (w : World) (fuel : nat) : LoginOutcome :=
  match generateQwenState w 0 with
  | (_, Some err) => Done (fail (ErrWrap "生成 state 失败" err))
  | (state, None) =>
      match generateCodeVerifier w 1 with
      | (_, Some err) => Done (fail (ErrWrap "生成 code verifier 失败" err))
      | (codeVerifier, None) =>
          let codeChallenge := generateCodeChallenge codeVerifier in
          match getQwenQRCode w state codeChallenge with
          | (_, Some err) => Done (fail (ErrWrap "获取二维码失败" err))
          | (None, None) => NilDereference
          | (Some qrCodeResp, None) =>
              match pollLoop w (QrCodeId (qr_Data qrCodeResp)) state
                             codeVerifier fuel loopStart with
              | Continue _ => Polling
              | Return r _ => Done r
              | Stuck _ => Hangs
              end
          end
      end
  end.

(** * Notions used in the statements *)

(** The verifier of the example of RFC 7636, appendix B. *)
Definition rfc7636_verifier : string :=
  "dBjftJeZ4CVP-mB92K27uhbUJU1p1r_wW1gFWFOEjXk".

(** The largest number of seconds whose count of nanoseconds is an
    [int64]: about 292 years. *)
Definition maxSeconds : Z := 9223372036.

(** The reply to the n-th status check is a response that parses and whose
    status is none of AUTHORIZED, EXPIRED and CANCELED. *)
Definition reportsWaiting (w : World) (n : nat) (qrCodeId : string) : Prop :=
  exists sc body statusResp,
    getStatus w n (statusURL qrCodeId) = Response sc body /\
    unmarshalStatusResponse body = Some statusResp /\
    Status (st_Data statusResp) <> "AUTHORIZED" /\
    Status (st_Data statusResp) <> "EXPIRED" /\
    Status (st_Data statusResp) <> "CANCELED".

(** The n-th check takes a tick of its own, so it is not made before
    n + 1 intervals have passed. *)
Definition onTime (st : LoopState) : Prop :=
  let n := Z.of_nat (List.length (polls st)) in
  pollInterval * n <= now st /\
  (tickReady st = true -> pollInterval * (n + 1) <= now st) /\
  Forall (fun t => pollInterval <= t) (polls st).

(** When every check is shorter than the interval, every check is over
    before the next tick: the checks are made at the ticks, and no tick
    waits when a check returns. *)
Definition inStep (st : LoopState) : Prop :=
  let n := Z.of_nat (List.length (polls st)) in
  tickReady st = false /\
  pollInterval * n <= now st < pollInterval * (n + 1) /\
  (List.length (polls st) <= 200)%nat.

(** ** Base64 alphabets *)

Definition stdChar (k : nat) : ascii :=
  match get k Base64.encodeStd with
  | Some c => c
  | None => "?"%char
  end.

Definition inRange (b : Z) : Prop := 0 <= b < 256.

Fixpoint contains (c : ascii) (s : string) : bool :=
  match s with
  | EmptyString => false
  | String d r => Ascii.eqb d c || contains c r
  end.

Definition usesUrlAlphabet (s : string) : bool :=
  contains "-" s || contains "_" s.

Definition rawStd : Base64.Encoding :=
  Base64.WithPadding Base64.StdEncoding Base64.NoPadding.

Definition urlChar (k : nat) : ascii :=
  match get k Base64.encodeURL with
  | Some c => c
  | None => "?"%char
  end.

(** The character of the standard alphabet for a character of the
    URL-safe one. *)
Definition toStd (c : ascii) : ascii :=
  if Ascii.eqb c "-" then "+"%char
  else if Ascii.eqb c "_" then "/"%char
  else c.

Fixpoint mapString (f : ascii -> ascii) (s : string) : string :=
  match s with
  | EmptyString => EmptyString
  | String c r => String (f c) (mapString f r)
  end.

(** * Stub servers, the inputs of the examples *)

Module Stub.

(** Now, on the clock of [time.Now]: some instant of the year 2026. *)
Definition wallClock : GoTime.Time := 63900000000 * GoTime.Second.

Definition grantBody : string :=
  dq "{'code':'200','message':'OK','data':{'qrCodeUrl':'https://oauth.aliyun.com/qr/q1','qrCodeId':'q1','redirectUri':'oob'}}".

Definition statusBody (status code : string) : string :=
  dq "{'code':'200','message':'OK','data':{'status':'" ++ status
  ++ dq "','code':'" ++ code ++ dq "'}}".

(** A server that answers the n-th status check with [status n] and the
    authorization code c0de, and every token request with [tokenBody]; a
    check takes [duration] nanoseconds; [first] is the case that [select]
    takes when both channels are ready. *)
Definition server (status : nat -> string) (tokenBody : string)
  (duration : N) (first : bool) : World :=
  mkWorld (fun n => Some (repeat (Z.of_nat n + 7) 32))
          (fun _ => Response StatusOK grantBody)
          (fun n _ => Response StatusOK (statusBody (status n) "c0de"))
          (fun _ _ => Response StatusOK tokenBody)
          (fun _ => wallClock)
          (fun _ => duration)
          (fun _ => first).

Definition tokenBody : string :=
  dq "{'access_token':'sk-1','refresh_token':'r-1','expires_in':3600,'token_type':'Bearer'}".

Definition ms (n : N) : N := n * 1000000.

(** The server authorizes at once and the token endpoint answers [body]. *)
Definition tokenServer (body : string) : World :=
  server (fun _ => "AUTHORIZED") body (ms 200) true.

Definition emptyTokenBody : string :=
  dq "{'access_token':'','token_type':'Bearer'}".

(** A token that lives longer than an [int64] of nanoseconds can count. *)
Definition longTokenBody : string :=
  dq "{'access_token':'sk-1','expires_in':9223372037}".

(** The grant endpoint answers [body]. *)
Definition grantServer (body : string) : World :=
  mkWorld (fun n => Some (repeat (Z.of_nat n + 7) 32))
          (fun _ => Response StatusOK body)
          (fun _ _ => NoReply) (fun _ _ => NoReply)
          (fun _ => wallClock) (fun _ => ms 200) (fun _ => true).

(** Servers whose status never changes. *)
Definition pending : World := server (fun _ => "PENDING") tokenBody (ms 200) true.
Definition expired : World := server (fun _ => "EXPIRED") tokenBody (ms 200) true.
Definition scanned : World :=
  server (fun _ => "QR_CODE_SCANNED") tokenBody (ms 200) true.


(** A server that answers PENDING to the first [k] status checks and leaves
    the requests of the later ones without an answer. *)
Definition silentAfter (k : nat) : World :=
  mkWorld (fun n => Some (repeat (Z.of_nat n + 7) 32))
          (fun _ => Response StatusOK grantBody)
          (fun n _ => if (n <? k)%nat
                      then Response StatusOK (statusBody "PENDING" "c0de")
                      else NoAnswer)
          (fun _ _ => Response StatusOK tokenBody)
          (fun _ => wallClock) (fun _ => ms 200) (fun _ => true).

(** The sequence of section 8 of the spec: PENDING, PENDING, SCANNED and
    then AUTHORIZED. *)
Definition authorizing : World :=
  server (fun n => nth n ["PENDING"; "PENDING"; "SCANNED"] "AUTHORIZED")
         tokenBody (ms 200) true.

(** A token in three parts, the second one the URL-safe base64 of
    [payload], without padding. *)
Definition jwt (payload : string) : string :=
  "abc." ++ base64URLEncode (bytes_of_string payload) ++ ".sig".

Definition plainPayload : string := dq "{'sub':'1001','name':'Wang Fang'}".
Definition namedPayload : string := dq "{'sub':'1001','name':'王芳'}".
Definition numericSubPayload : string := dq "{'sub':1001}".

(** An answer of the grant endpoint that reports a failure, without data. *)
Definition grantFailureBody : string :=
  dq "{'code':'500','message':'internal error'}".

End Stub.

(** * Further code of the repository *)

(** ** strings.HasPrefix, strings.TrimPrefix, strings.ReplaceAll *)

Module GoStrings.

Definition HasPrefix (s prefix : string) : bool := String.prefix prefix s.

Fixpoint drop (n : nat) (s : string) : string :=
  match n, s with
  | S k, String _ r => drop k r
  | _, _ => s
  end.

Definition TrimPrefix (s prefix : string) : string :=
  if HasPrefix s prefix then drop (String.length prefix) s else s.

(** [ReplaceAll s old new] for an [old] that is not empty, as it is in
    every call of the repository: the occurrences of [old] are replaced from
    left to right, and the search goes on after each occurrence.  [skip]
    counts the characters of an occurrence that are still to be passed. *)
Fixpoint replaceFrom (skip : nat) (s old new : string) : string :=
  match s with
  | EmptyString => EmptyString
  | String c r =>
      match skip with
      | S k => replaceFrom k r old new
      | O =>
          if String.prefix old s
          then new ++ replaceFrom (String.length old - 1) r old new
          else String c (replaceFrom 0 r old new)
      end
  end.

Definition ReplaceAll (s old new : string) : string := replaceFrom 0 s old new.

(** [fmt.Sprintf] of the verb d on a number that is not negative. *)
Fixpoint digitsOf (fuel n : nat) (acc : string) : string :=
  match fuel with
  | O => acc
  | S f =>
      let d := String (ascii_of_nat (48 + Nat.modulo n 10)) acc in
      if Nat.ltb n 10 then d else digitsOf f (Nat.div n 10) d
  end.

Definition itoa (n : nat) : string := digitsOf (S n) n EmptyString.

End GoStrings.

(** ** Predicates on the characters of a string *)

Fixpoint allChars (p : ascii -> bool) (s : string) : bool :=
  match s with
  | EmptyString => true
  | String c r => p c && allChars p r
  end.

(** A lower-case hexadecimal digit. *)
Definition isHexDigit (c : ascii) : bool :=
  let b := byte_of_ascii c in
  ((48 <=? b) && (b <=? 57)) || ((97 <=? b) && (b <=? 102)).

(** A character that RFC 3986 calls unreserved and that RFC 7636 allows in
    a code verifier: a letter, a digit, or one of - . _ and the tilde. *)
Definition isUnreserved (c : ascii) : bool :=
  let b := byte_of_ascii c in
  ((48 <=? b) && (b <=? 57)) || ((65 <=? b) && (b <=? 90))
  || ((97 <=? b) && (b <=? 122))
  || (b =? 45) || (b =? 46) || (b =? 95) || (b =? 126).

(** ** The pace of the status checks *)

(** The check instants, newest first: the k-th check is not made before k
    intervals have passed, and every check is later than the one before. *)
Fixpoint paced (l : list Z) : Prop :=
  match l with
  | [] => True
  | t :: r =>
      pollInterval * Z.of_nat (List.length l) <= t /\
      match r with
      | [] => True
      | t' :: _ => t' < t
      end /\
      paced r
  end.

(** ** pkg/providers/qwen_provider.go *)

Definition GetDefaultModel : string := "qwen-plus".

Definition GetQwenModels : list string :=
  [ "qwen-turbo"; "qwen-plus"; "qwen-max"; "qwen-max-longcontext";
    "qwen-vl-max"; "qwen-vl-plus"; "qwen-audio-turbo" ].

Definition ParseQwenModel (model : string) : string :=
  if GoStrings.HasPrefix model "qwen/" then GoStrings.TrimPrefix model "qwen/"
  else if GoStrings.HasPrefix model "dashscope/"
       then GoStrings.TrimPrefix model "dashscope/"
       else model.

(** [LoginQwenOAuth].  [auth.SaveCredential] is declared in a file that is
    not under src/ and is taken as a parameter: [None] is its success.  What
    is printed is left out, but for the account id, which is read from the
    credential after it is saved: a nil credential is a nil dereference
    there. *)
Inductive OAuthOutcome : Type :=
| OAuthPolling
| OAuthDone (err : option Error)
| OAuthNilDereference
| OAuthHangs.

Definition LoginQwenOAuth (w : World) (fuel : nat)
  (SaveCredential : string -> option AuthCredential -> option Error)
  : OAuthOutcome :=
  match LoginQwenQRCode w fuel with
  | Polling => OAuthPolling
  | Hangs => OAuthHangs
  | NilDereference => OAuthNilDereference
  | Done (_, Some err) => OAuthDone (Some (ErrWrap "登录失败" err))
  | Done (cred, None) =>
      match SaveCredential "qwen" cred with
      | Some err => OAuthDone (Some (ErrWrap "保存凭证失败" err))
      | None =>
          match cred with
          | Some _ => OAuthDone None
          | None => OAuthNilDereference
          end
      end
  end.

(** ** pkg/channels/telegram.go *)

Definition escapeHTML (text : string) : string :=
  let text := GoStrings.ReplaceAll text "&" "&amp;" in
  let text := GoStrings.ReplaceAll text "<" "&lt;" in
  let text := GoStrings.ReplaceAll text ">" "&gt;" in
  text.

(** The clock is not before the last check, and no tick waits at the
    instant of the last check itself. *)
Definition lastCheckPassed (st : LoopState) : Prop :=
  match polls st with
  | [] => True
  | t :: _ => t <= now st /\ (t = now st -> tickReady st = false)
  end.

(** A check is made at a tick that is not after the deadline. *)
Definition atTick (t : Z) : Prop :=
  t <= pollDeadline /\ exists k, t = pollInterval * k.

(** ** Strings, one character after the other *)

Fixpoint concatMap (f : ascii -> string) (s : string) : string :=
  match s with
  | EmptyString => EmptyString
  | String c r => f c ++ concatMap f r
  end.

(** What [escapeHTML] puts for one character. *)
Definition escapeChar (c : ascii) : string :=
  if Ascii.eqb c "&" then "&amp;"
  else if Ascii.eqb c "<" then "&lt;"
  else if Ascii.eqb c ">" then "&gt;"
  else String c EmptyString.

(** ** Inline code in a message (pkg/channels/telegram.go)

    The regular expression of [extractInlineCodes] is a backtick, one or
    more characters that are not backticks, and a backtick.  Its matches are
    found from left to right, each search starting where the match before
    it ends: at a backtick, the match is the text up to the next backtick
    when there is one and it is not the very next character. *)

Definition backtick : ascii := "`"%char.

(** The characters of [s] before its first backtick, when it has one. *)
Fixpoint toBacktick (s : string) : option string :=
  match s with
  | EmptyString => None
  | String c r =>
      if Ascii.eqb c backtick then Some EmptyString
      else match toBacktick r with
           | Some body => Some (String c body)
           | None => None
           end
  end.

Inductive Segment : Type :=
| Plain (c : ascii)          (* a character outside of the matches *)
| InlineCode (code : string). (* a match, with its group *)

(** The matches and the characters between them; [skip] counts the
    characters of a match that are still to be passed. *)
Fixpoint segments (skip : nat) (s : string) : list Segment :=
  match s with
  | EmptyString => []
  | String c r =>
      match skip with
      | S k => segments k r
      | O =>
          if Ascii.eqb c backtick then
            match toBacktick r with
            | Some (String a body) =>
                InlineCode (String a body)
                  :: segments (String.length body + 2) r
            | _ => Plain c :: segments 0 r
            end
          else Plain c :: segments 0 r
      end
  end.

Definition nul : string := String (ascii_of_nat 0) EmptyString.

Record inlineCodeMatch := mkInlineCodeMatch {
  ic_text : string;
  ic_codes : list string
}.

Definition groupOf (g : Segment) : list string :=
  match g with
  | Plain _ => []
  | InlineCode code => [code]
  end.

(** The text in which every match is replaced by [placeholder]. *)
Fixpoint replaceMatches (placeholder : string) (l : list Segment) : string :=
  match l with
  | [] => EmptyString
  | Plain c :: r => String c (replaceMatches placeholder r)
  | InlineCode _ :: r => placeholder ++ replaceMatches placeholder r
  end.

(** The placeholder that [extractInlineCodes] makes for the code [i]. *)
Definition inlinePlaceholder (i : nat) : string :=
  nul ++ "IC" ++ GoStrings.itoa i ++ nul.

(** Every match is replaced by the placeholder that the function given to
    [ReplaceAllStringFunc] makes: it is made from the number of the codes,
    which is the same at every match. *)
Definition extractInlineCodes (text : string) : inlineCodeMatch :=
  let matches := segments 0 text in
  let codes := flat_map groupOf matches in
  let text :=
    replaceMatches (inlinePlaceholder (List.length codes - 1)) matches in
  mkInlineCodeMatch text codes.

(** * Properties *)

(** ** PKCE *)

Lemma generateCodeChallenge_verifier verifier :
  generateCodeChallenge verifier = verifier.
Proof. reflexivity. Qed.

Lemma spec_codeChallenge_rfc7636 :
  spec_codeChallenge rfc7636_verifier
  = "E9Melhoa2OwvFrEMTJguCHaoeK1t8URWbuGJSstw-cM".
Proof. vm_compute. reflexivity. Qed.

(** C1: the challenge should be the unpadded URL-safe base64 of the SHA-256
    hash of the verifier.  [generateCodeChallenge] does not hash: on the
    verifier of RFC 7636 it returns the verifier itself, which is not the
    challenge that the RFC gives for it. *)
Theorem C1_challenge_not_hashed :
  generateCodeChallenge rfc7636_verifier = rfc7636_verifier /\
  spec_codeChallenge rfc7636_verifier
  = "E9Melhoa2OwvFrEMTJguCHaoeK1t8URWbuGJSstw-cM" /\
  generateCodeChallenge rfc7636_verifier <> spec_codeChallenge rfc7636_verifier.
Proof.
  split; [reflexivity|].
  split; [apply spec_codeChallenge_rfc7636|].
  rewrite spec_codeChallenge_rfc7636, generateCodeChallenge_verifier.
  unfold rfc7636_verifier. discriminate.
Qed.

(** ** The token exchange *)

(** What [exchangeQwenCodeForToken] returns, read off the reply. *)
Lemma exchange_cases w n code codeVerifier state :
  let r := exchangeQwenCodeForToken w n code codeVerifier state in
  match postToken w n (tokenForm code codeVerifier state) with
  | NoAnswer => r = nothing
  | NoReply => r = fail ErrTransport
  | Response sc body =>
      if sc =? StatusOK then
        match unmarshalTokenResponse body with
        | None => r = fail ErrUnmarshal
        | Some t =>
            if String.eqb (AccessToken t) "" then r = fail ErrNoAccessToken
            else exists cred, r = ok cred /\
                   cred_AccessToken cred = AccessToken t /\
                   cred_RefreshToken cred = RefreshToken t /\
                   cred_AccountID cred = extractQwenAccountID (AccessToken t) /\
                   cred_ExpiresAt cred =
                     (if 0 <? ExpiresIn t
                      then GoTime.Add (timeNow w n)
                                      (GoTime.mul (ExpiresIn t) GoTime.Second)
                      else GoTime.zeroTime)
        end
      else r = fail (ErrTokenStatus body)
  end.
Proof.
  unfold exchangeQwenCodeForToken.
  destruct (postToken w n _) as [|sc body|]; cbn zeta;
    [reflexivity| |reflexivity].
  destruct (sc =? StatusOK); cbn [negb]; [|reflexivity].
  destruct (unmarshalTokenResponse body) as [t|]; [|reflexivity].
  destruct (String.eqb (AccessToken t) "") eqn:E; [reflexivity|].
  eexists; split; [reflexivity|]. cbn.
  repeat split.
  destruct (String.eqb (extractQwenAccountID (AccessToken t)) "") eqn:E2;
    [apply String.eqb_eq in E2; now rewrite E2 | reflexivity].
Qed.

(** The exchange returns exactly when its request is answered or fails,
    and it is then that it has a result. *)
Lemma exchange_returns w n code codeVerifier state :
  exchangeReturns w n code codeVerifier state = true
  <-> exchangeQwenCodeForToken w n code codeVerifier state <> (None, None).
Proof.
  pose proof (exchange_cases w n code codeVerifier state) as H. cbn zeta in H.
  unfold exchangeReturns.
  destruct (postToken w n _) as [|sc body|].
  - rewrite H. split; [discriminate|reflexivity].
  - split; [intros _|reflexivity].
    destruct (sc =? StatusOK); [|rewrite H; discriminate].
    destruct (unmarshalTokenResponse body) as [t|]; [|rewrite H; discriminate].
    destruct (String.eqb (AccessToken t) ""); [rewrite H; discriminate|].
    destruct H as (cred & -> & _). discriminate.
  - rewrite H. split; [discriminate|intros Hx; now elim Hx].
Qed.

(** C4: a reply with status 200 whose access_token parses to the empty
    string makes the exchange fail, with the error of the missing token and
    without a credential; and no credential that the exchange returns has an
    empty access token. *)
Theorem C4_empty_access_token w n code codeVerifier state :
  (forall body t,
      postToken w n (tokenForm code codeVerifier state) = Response StatusOK body ->
      unmarshalTokenResponse body = Some t ->
      AccessToken t = "" ->
      exchangeQwenCodeForToken w n code codeVerifier state
      = (None, Some ErrNoAccessToken)) /\
  (forall cred,
      fst (exchangeQwenCodeForToken w n code codeVerifier state) = Some cred ->
      cred_AccessToken cred <> "").
Proof.
  pose proof (exchange_cases w n code codeVerifier state) as H. cbn zeta in H.
  split.
  - intros body t Hp Hu Ha. rewrite Hp, Hu, Ha in H. exact H.
  - intros cred Hc.
    destruct (postToken w n _) as [|sc body|];
      [rewrite H in Hc; discriminate| |rewrite H in Hc; discriminate].
    destruct (sc =? StatusOK); [|rewrite H in Hc; discriminate].
    destruct (unmarshalTokenResponse body) as [t|];
      [|rewrite H in Hc; discriminate].
    destruct (String.eqb (AccessToken t) "") eqn:E;
      [rewrite H in Hc; discriminate|].
    destruct H as (c & Hr & Ha & _). rewrite Hr in Hc. cbn in Hc.
    injection Hc as <-. rewrite Ha. intro Hx.
    apply String.eqb_eq in Hx. congruence.
Qed.

Lemma C4_empty_access_token_witness :
  postToken (Stub.tokenServer Stub.emptyTokenBody) 0
            (tokenForm "c0de" "verifier" "state")
  = Response StatusOK Stub.emptyTokenBody /\
  unmarshalTokenResponse Stub.emptyTokenBody
  = Some (mkQwenTokenResponse "" "" 0 "Bearer") /\
  exchangeQwenCodeForToken (Stub.tokenServer Stub.emptyTokenBody) 0
                           "c0de" "verifier" "state"
  = (None, Some ErrNoAccessToken).
Proof.
  split; [reflexivity|]. split; [reflexivity|].
  apply (proj1 (C4_empty_access_token (Stub.tokenServer Stub.emptyTokenBody)
                  0%nat "c0de" "verifier" "state")
               Stub.emptyTokenBody (mkQwenTokenResponse "" "" 0 "Bearer"));
    reflexivity.
Defined.

Lemma mul_Second_exact (n : Z) :
  0 <= n <= maxSeconds -> GoTime.mul n GoTime.Second = n * GoTime.Second.
Proof.
  unfold GoTime.mul, GoTime.wrap64, GoTime.Second, maxSeconds. intros H.
  rewrite Z.mod_small; lia.
Qed.

(** C7, as the code has it: when the exchange succeeds on a reply whose
    expires_in is at most [maxSeconds], the expiry of the credential is
    [time.Now] plus expires_in seconds if expires_in is positive, and the
    zero time if it is not. *)
Theorem C7_expiry w n code codeVerifier state body t :
  postToken w n (tokenForm code codeVerifier state) = Response StatusOK body ->
  unmarshalTokenResponse body = Some t ->
  AccessToken t <> "" ->
  ExpiresIn t <= maxSeconds ->
  exists cred,
    exchangeQwenCodeForToken w n code codeVerifier state = (Some cred, None) /\
    cred_ExpiresAt cred =
      if 0 <? ExpiresIn t
      then timeNow w n + ExpiresIn t * GoTime.Second
      else GoTime.zeroTime.
Proof.
  intros Hp Hu Ha Hm.
  pose proof (exchange_cases w n code codeVerifier state) as H. cbn zeta in H.
  rewrite Hp, Hu in H. cbn in H.
  destruct (String.eqb (AccessToken t) "") eqn:E.
  { apply String.eqb_eq in E. contradiction. }
  destruct H as (cred & Hr & _ & _ & _ & He).
  exists cred. split; [exact Hr|]. rewrite He.
  destruct (0 <? ExpiresIn t) eqn:Hpos; [|reflexivity].
  apply Z.ltb_lt in Hpos. unfold GoTime.Add.
  rewrite mul_Second_exact by lia. reflexivity.
Qed.

Lemma C7_expiry_witness :
  exists cred,
    exchangeQwenCodeForToken (Stub.tokenServer Stub.tokenBody) 0
                             "c0de" "verifier" "state" = (Some cred, None) /\
    cred_ExpiresAt cred = Stub.wallClock + 3600 * GoTime.Second.
Proof.
  apply (C7_expiry (Stub.tokenServer Stub.tokenBody) 0%nat
                   "c0de" "verifier" "state" Stub.tokenBody
                   (mkQwenTokenResponse "sk-1" "r-1" 3600 "Bearer")).
  - reflexivity.
  - reflexivity.
  - discriminate.
  - vm_compute. discriminate.
Defined.

(** C7 as it is stated fails: expires_in = 9223372037 is positive, its
    count of nanoseconds wraps around to a negative [Duration], and the
    expiry is not now plus expires_in seconds: it lies before now. *)
Lemma C7_counterexample :
  unmarshalTokenResponse Stub.longTokenBody
  = Some (mkQwenTokenResponse "sk-1" "" 9223372037 "") /\
  exchangeQwenCodeForToken (Stub.tokenServer Stub.longTokenBody) 0
                           "c0de" "verifier" "state"
  = (Some (mkAuthCredential "sk-1" "" (Stub.wallClock - 9223372036709551616)
                            "qwen" "oauth" ""), None) /\
  Stub.wallClock - 9223372036709551616
  <> timeNow (Stub.tokenServer Stub.longTokenBody) 0
     + 9223372037 * GoTime.Second.
Proof.
  split; [vm_compute; reflexivity|].
  split; [vm_compute; reflexivity|].
  vm_compute. discriminate.
Qed.

(** ** The grant *)

(** [getQwenQRCode] fails, with an error that carries the body, exactly
    when the body of the reply cannot be unmarshalled into the response; a
    body that can is returned as it was parsed: neither the status of the
    reply nor the fields of the response are looked at. *)
Lemma getQwenQRCode_parsed w state codeChallenge sc body :
  getQRCode w (qrCodeURL state codeChallenge) = Response sc body ->
  (unmarshalQRCodeResponse body = None ->
   getQwenQRCode w state codeChallenge = (None, Some (ErrQRCodeParse body))) /\
  (forall qrResp,
     unmarshalQRCodeResponse body = Some qrResp ->
     getQwenQRCode w state codeChallenge = (Some qrResp, None)).
Proof.
  intros Hr. unfold getQwenQRCode. rewrite Hr. split.
  - intros ->. reflexivity.
  - intros qrResp ->. reflexivity.
Qed.

(** C6: the grant request should fail on a reply that has no qrCodeId or
    qrCodeUrl.  The reply with which a server reports a failure, a JSON
    document with the code 500 and no data, is returned as a grant whose
    qrCodeId and qrCodeUrl are empty, without an error, whatever the status
    of the reply is; the login goes on with it, polls the status of the
    grant with the empty identifier, and ends with the timeout at the
    deadline. *)
Theorem C6_failure_reply_taken_as_grant :
  (forall w state codeChallenge sc,
     getQRCode w (qrCodeURL state codeChallenge)
     = Response sc Stub.grantFailureBody ->
     getQwenQRCode w state codeChallenge
     = (Some (mkQwenQRCodeResponse "500" "internal error"
                (mkQRCodeData "" "" "" "")), None)) /\
  getQwenQRCode (Stub.grantServer Stub.grantFailureBody) "state" "challenge"
  = (Some (mkQwenQRCodeResponse "500" "internal error"
             (mkQRCodeData "" "" "" "")), None) /\
  statusURL (QrCodeId (mkQRCodeData "" "" "" ""))
  = "https://oauth.aliyun.com/v1/oauth/qrcode/status?id=" /\
  LoginQwenQRCode (Stub.grantServer Stub.grantFailureBody) 199 = Polling /\
  LoginQwenQRCode (Stub.grantServer Stub.grantFailureBody) 200
  = Done (None, Some ErrScanTimeout).
Proof.
  split.
  { intros w state codeChallenge sc Hr.
    apply (proj2 (getQwenQRCode_parsed w state codeChallenge sc _ Hr)).
    vm_compute. reflexivity. }
  repeat split; vm_compute; reflexivity.
Qed.

(** ** The status check *)

Lemma check_waiting w n qrCodeId state codeVerifier :
  reportsWaiting w n qrCodeId ->
  checkQwenScanStatus w n qrCodeId state codeVerifier = (None, None).
Proof.
  intros (sc & body & sr & Hg & Hu & Ha & He & Hc).
  unfold checkQwenScanStatus. cbn zeta. rewrite Hg, Hu.
  apply String.eqb_neq in Ha, He, Hc. rewrite Ha, He, Hc. reflexivity.
Qed.

(** A check whose request is answered with a status that is not AUTHORIZED
    makes no other request: it returns. *)
Lemma check_returns w n qrCodeId state codeVerifier sc body statusResp :
  getStatus w n (statusURL qrCodeId) = Response sc body ->
  unmarshalStatusResponse body = Some statusResp ->
  Status (st_Data statusResp) <> "AUTHORIZED" ->
  checkReturns w n qrCodeId state codeVerifier = true.
Proof.
  intros Hg Hu Ha. unfold checkReturns. rewrite Hg, Hu.
  apply String.eqb_neq in Ha. now rewrite Ha.
Qed.

(** The check does not return when the request of the status, or the
    request of the exchange that the status AUTHORIZED starts, is never
    answered, and only then. *)
Lemma check_blocked w n qrCodeId state codeVerifier :
  checkReturns w n qrCodeId state codeVerifier = false
  <-> getStatus w n (statusURL qrCodeId) = NoAnswer
      \/ exists sc body statusResp,
           getStatus w n (statusURL qrCodeId) = Response sc body /\
           unmarshalStatusResponse body = Some statusResp /\
           Status (st_Data statusResp) = "AUTHORIZED" /\
           st_AuthCode (st_Data statusResp) <> "" /\
           postToken w n (tokenForm (st_AuthCode (st_Data statusResp))
                                    codeVerifier state) = NoAnswer.
Proof.
  unfold checkReturns, exchangeReturns.
  destruct (getStatus w n _) as [|sc body|] eqn:Hg.
  - split; [discriminate|].
    intros [H | (sc & body & sr & H & _)]; discriminate.
  - destruct (unmarshalStatusResponse body) as [sr|] eqn:Hu.
    2:{ split; [discriminate|].
        intros [H | (sc' & body' & sr & H & Hu' & _)]; [discriminate|].
        injection H as _ <-. congruence. }
    destruct (String.eqb (Status (st_Data sr)) "AUTHORIZED") eqn:Hs.
    2:{ split; [discriminate|].
        intros [H | (sc' & body' & sr' & H & Hu' & Hs' & _)]; [discriminate|].
        injection H as _ <-. rewrite Hu in Hu'. injection Hu' as <-.
        apply String.eqb_neq in Hs. contradiction. }
    destruct (String.eqb (st_AuthCode (st_Data sr)) "") eqn:Hc.
    { split; [discriminate|].
      intros [H | (sc' & body' & sr' & H & Hu' & _ & Hc' & _)]; [discriminate|].
      injection H as _ <-. rewrite Hu in Hu'. injection Hu' as <-.
      apply String.eqb_eq in Hc. contradiction. }
    destruct (postToken w n _) eqn:Hp.
    + split; [discriminate|].
      intros [H | (sc' & body' & sr' & H & Hu' & _ & _ & Hp')]; [discriminate|].
      injection H as _ <-. rewrite Hu in Hu'. injection Hu' as <-.
      congruence.
    + split; [discriminate|].
      intros [H | (sc' & body' & sr' & H & Hu' & _ & _ & Hp')]; [discriminate|].
      injection H as _ <-. rewrite Hu in Hu'. injection Hu' as <-.
      congruence.
    + split; [intros _|reflexivity]. right. exists sc, body, sr.
      apply String.eqb_eq in Hs. apply String.eqb_neq in Hc.
      repeat split; assumption.
  - split; [intros _; now left|reflexivity].
Qed.

(** The errors of the status check. *)
Lemma check_expired w n qrCodeId state codeVerifier sc body statusResp :
  getStatus w n (statusURL qrCodeId) = Response sc body ->
  unmarshalStatusResponse body = Some statusResp ->
  Status (st_Data statusResp) = "EXPIRED"
  \/ Status (st_Data statusResp) = "CANCELED" ->
  checkQwenScanStatus w n qrCodeId state codeVerifier
  = (None, Some ErrExpiredOrCanceled).
Proof.
  intros Hg Hu Hs. unfold checkQwenScanStatus. cbn zeta. rewrite Hg, Hu.
  destruct Hs as [-> | ->]; reflexivity.
Qed.

(** ** The polling loop *)

Lemma pollInterval_value : pollInterval = 3000000000.
Proof. reflexivity. Qed.

Lemma pollDeadline_value : pollDeadline = 200 * pollInterval.
Proof. reflexivity. Qed.

Lemma nextTick_after (t : Z) : t < nextTick t <= t + pollInterval.
Proof.
  unfold nextTick. rewrite pollInterval_value.
  Z.div_mod_to_equations. lia.
Qed.

Lemma nextTick_lower (n t : Z) :
  pollInterval * n <= t -> pollInterval * (n + 1) <= nextTick t.
Proof.
  unfold nextTick. rewrite pollInterval_value. intros H.
  Z.div_mod_to_equations. lia.
Qed.

Lemma nextTick_exact (n t : Z) :
  pollInterval * n <= t < pollInterval * (n + 1) ->
  nextTick t = pollInterval * (n + 1).
Proof.
  unfold nextTick. rewrite pollInterval_value. intros H.
  Z.div_mod_to_equations. lia.
Qed.

(** A tick has fallen between [t] and [t']. *)
Lemma tick_between (n t t' : Z) :
  pollInterval * n <= t ->
  (t / pollInterval <? t' / pollInterval) = true ->
  pollInterval * (n + 1) <= t'.
Proof.
  rewrite pollInterval_value. intros H Hlt. apply Z.ltb_lt in Hlt.
  Z.div_mod_to_equations. lia.
Qed.

Lemma no_tick_between (n t d : Z) :
  t = pollInterval * n -> 0 <= d < pollInterval ->
  (t / pollInterval <? (t + d) / pollInterval) = false.
Proof.
  rewrite pollInterval_value. intros -> H. apply Z.ltb_ge.
  Z.div_mod_to_equations. lia.
Qed.

Section Loop.

Variable w : World.
Variables qrCodeId state codeVerifier : string.


Lemma iteration_cases st :
  iteration w qrCodeId state codeVerifier st =
    if timesOut w st then Return (None, Some ErrScanTimeout) (await st)
    else if checkReturns w (List.length (polls (await st)))
                         qrCodeId state codeVerifier
    then match checkQwenScanStatus w (List.length (polls (await st)))
                                   qrCodeId state codeVerifier with
         | (Some cred, None) => Return (Some cred, None) (afterPoll w (await st))
         | _ => Continue (afterPoll w (await st))
         end
    else Stuck (startPoll (await st)).
Proof.
  unfold iteration. cbn zeta.
  destruct (timesOut w st); [reflexivity|].
  destruct (checkReturns _ _ _ _ _); [|reflexivity].
  destruct (checkQwenScanStatus _ _ _ _ _) as [[c|] [e|]]; reflexivity.
Qed.

Lemma polls_await st : polls (await st) = polls st.
Proof.
  unfold await.
  destruct (tickReady st || (pollDeadline <=? now st)); [reflexivity|].
  destruct (nextTick (now st) <=? pollDeadline); reflexivity.
Qed.

(** After its wait, [select] has a ready channel. *)
Lemma await_ready st :
  tickReady (await st) = true \/ pollDeadline <= now (await st).
Proof.
  unfold await.
  destruct (tickReady st) eqn:Ht; cbn [orb]; [left; exact Ht|].
  destruct (pollDeadline <=? now st) eqn:Hd.
  - right. apply Z.leb_le. exact Hd.
  - destruct (nextTick (now st) <=? pollDeadline); cbn; [now left|right; lia].
Qed.

(** A turn that goes on has taken a tick. *)
Lemma tick_taken st :
  timesOut w st = false -> tickReady (await st) = true.
Proof.
  unfold timesOut. cbn zeta. intros H.
  destruct (await_ready st) as [Ht|Hd]; [exact Ht|].
  apply Z.leb_le in Hd. rewrite Hd in H. cbn [andb] in H.
  destruct (tickReady (await st)); [reflexivity|discriminate].
Qed.

Lemma timesOut_deadline st :
  timesOut w st = true -> pollDeadline <= now (await st).
Proof.
  unfold timesOut. cbn zeta. intros H.
  apply andb_true_iff in H. apply Z.leb_le. apply H.
Qed.

(** The loop returns a credential or the timeout; no error of a status
    check leaves it. *)
Lemma pollLoop_returns fuel : forall st r st',
  pollLoop w qrCodeId state codeVerifier fuel st = Return r st' ->
  r = (None, Some ErrScanTimeout) \/ exists cred, r = (Some cred, None).
Proof.
  induction fuel as [|fuel IH]; intros st r st' H; [discriminate|].
  cbn [pollLoop] in H. rewrite iteration_cases in H.
  destruct (timesOut w st).
  - injection H as <- _. now left.
  - destruct (checkReturns _ _ _ _ _); [|discriminate].
    destruct (checkQwenScanStatus _ _ _ _ _) as [[c|] [e|]];
      try (apply IH in H; exact H).
    injection H as <- _. right. now exists c.
Qed.

Lemma onTime_start : onTime loopStart.
Proof.
  unfold onTime, loopStart. cbn. repeat split; try lia. constructor.
Qed.

Lemma onTime_await st : onTime st -> onTime (await st).
Proof.
  unfold onTime. cbn zeta. rewrite polls_await.
  intros (Hn & Ht & Hp). unfold await.
  destruct (tickReady st || (pollDeadline <=? now st)) eqn:E.
  { repeat split; assumption. }
  apply orb_false_iff in E. destruct E as [Et Ed]. apply Z.leb_gt in Ed.
  pose proof (nextTick_lower _ _ Hn) as Hnext.
  pose proof (nextTick_after (now st)) as Hafter.
  destruct (nextTick (now st) <=? pollDeadline) eqn:En;
    cbn [now tickReady polls].
  - repeat split; try assumption; lia.
  - apply Z.leb_gt in En. repeat split; try assumption; try lia.
Qed.

Lemma onTime_afterPoll st1 :
  onTime st1 -> tickReady st1 = true -> onTime (afterPoll w st1).
Proof.
  unfold onTime, afterPoll. cbn zeta. cbn [polls now tickReady List.length].
  intros (Hn & Ht & Hp) Hr. specialize (Ht Hr).
  pose proof (N2Z.is_nonneg (pollDuration w (List.length (polls st1)))) as Hd.
  rewrite Nat2Z.inj_succ. unfold Z.succ.
  split; [lia|]. split.
  - intros Hlt. apply (tick_between _ _ _ Ht Hlt).
  - constructor; [|exact Hp].
    rewrite pollInterval_value in *. lia.
Qed.

(** A check is begun at a tick of its own. *)
Lemma onTime_startPoll st1 :
  onTime st1 -> tickReady st1 = true -> onTime (startPoll st1).
Proof.
  unfold onTime, startPoll. cbn zeta. cbn [polls now tickReady List.length].
  intros (Hn & Ht & Hp) Hr. specialize (Ht Hr).
  rewrite Nat2Z.inj_succ. unfold Z.succ.
  split; [lia|]. split; [discriminate|].
  constructor; [|exact Hp].
  rewrite pollInterval_value in *. lia.
Qed.

Lemma onTime_iteration st st' :
  onTime st -> iteration w qrCodeId state codeVerifier st = Continue st' ->
  onTime st' /\ List.length (polls st') = S (List.length (polls st)).
Proof.
  intros Hi H. rewrite iteration_cases in H.
  destruct (timesOut w st) eqn:Ho; [discriminate|].
  destruct (checkReturns _ _ _ _ _); [|discriminate].
  assert (st' = afterPoll w (await st)) as ->.
  { destruct (checkQwenScanStatus _ _ _ _ _) as [[c|] [e|]]; congruence. }
  split.
  - apply onTime_afterPoll; [apply onTime_await; exact Hi|].
    apply tick_taken. exact Ho.
  - unfold afterPoll. cbn. now rewrite polls_await.
Qed.

Lemma onTime_return st r st' :
  onTime st -> iteration w qrCodeId state codeVerifier st = Return r st' ->
  onTime st' /\ pollInterval <= now st'.
Proof.
  intros Hi H. rewrite iteration_cases in H.
  pose proof (onTime_await st Hi) as Ha.
  destruct (timesOut w st) eqn:Ho.
  - injection H as _ <-. split; [exact Ha|].
    apply timesOut_deadline in Ho.
    rewrite pollDeadline_value, pollInterval_value in *. lia.
  - apply tick_taken in Ho.
    pose proof (onTime_afterPoll _ Ha Ho) as Hp.
    destruct (checkReturns _ _ _ _ _); [|discriminate].
    assert (st' = afterPoll w (await st)) as ->.
    { destruct (checkQwenScanStatus _ _ _ _ _) as [[c|] [e|]]; congruence. }
    split; [exact Hp|].
    destruct Hp as (Hn & _ & _). unfold afterPoll in Hn.
    cbn [polls now List.length] in Hn. rewrite Nat2Z.inj_succ in Hn.
    unfold afterPoll. cbn [now].
    rewrite pollInterval_value in *. lia.
Qed.

Lemma onTime_stuck st st' :
  onTime st -> iteration w qrCodeId state codeVerifier st = Stuck st' ->
  onTime st'.
Proof.
  intros Hi H. rewrite iteration_cases in H.
  destruct (timesOut w st) eqn:Ho; [discriminate|].
  destruct (checkReturns _ _ _ _ _).
  { destruct (checkQwenScanStatus _ _ _ _ _) as [[c|] [e|]]; discriminate. }
  injection H as <-.
  apply onTime_startPoll; [apply onTime_await; exact Hi|].
  apply tick_taken. exact Ho.
Qed.

Lemma onTime_pollLoop fuel : forall st,
  onTime st ->
  onTime (stateOf (pollLoop w qrCodeId state codeVerifier fuel st)) /\
  (forall r st', pollLoop w qrCodeId state codeVerifier fuel st = Return r st' -> pollInterval <= now st').
Proof.
  induction fuel as [|fuel IH]; intros st Hi.
  - split; [exact Hi|discriminate].
  - cbn [pollLoop].
    destruct (iteration w qrCodeId state codeVerifier st) as [st1|r1 st1|st1] eqn:E.
    + apply onTime_iteration in E; [|exact Hi]. apply IH, E.
    + apply onTime_return in E; [|exact Hi]. cbn [stateOf].
      split; [apply E|]. intros r st' H. injection H as _ <-. apply E.
    + apply onTime_stuck in E; [|exact Hi]. cbn [stateOf].
      split; [exact E|discriminate].
Qed.

End Loop.

(** *** A server that goes on reporting a status that is not final *)

Section Waiting.

Variable w : World.
Variables qrCodeId state codeVerifier : string.

Hypothesis waiting : forall n, reportsWaiting w n qrCodeId.


Lemma iteration_waiting st :
  iteration w qrCodeId state codeVerifier st =
    if timesOut w st then Return (None, Some ErrScanTimeout) (await st)
    else Continue (afterPoll w (await st)).
Proof.
  rewrite iteration_cases.
  destruct (timesOut w st); [reflexivity|].
  destruct (waiting (List.length (polls (await st))))
    as (sc & body & sr & Hg & Hu & Ha & _).
  rewrite (check_returns _ _ _ state codeVerifier _ _ _ Hg Hu Ha).
  now rewrite (check_waiting _ _ _ state codeVerifier (waiting _)).
Qed.

(** Once 200 checks are made the deadline has passed, and the loop returns
    at the first [select] that takes the deadline. *)
Lemma waiting_until_deadline_taken (m : nat) : forall st,
  onTime st ->
  (200 <= List.length (polls st) + m)%nat ->
  selectDeadline w (List.length (polls st) + m) = true ->
  exists fuel st',
    pollLoop w qrCodeId state codeVerifier fuel st = Return (None, Some ErrScanTimeout) st' /\
    pollDeadline <= now st'.
Proof.
  induction m as [|m IH]; intros st Hi Hn Hs.
  - rewrite Nat.add_0_r in Hn, Hs.
    exists 1%nat, (await st). cbn [pollLoop].
    rewrite iteration_waiting.
    assert (Hd : pollDeadline <= now st).
    { destruct Hi as (Hi & _). rewrite pollDeadline_value.
      rewrite pollInterval_value in *. lia. }
    assert (Ha : await st = st).
    { unfold await. apply Z.leb_le in Hd. rewrite Hd.
      now rewrite orb_true_r. }
    unfold timesOut. cbn zeta. rewrite Ha, Hs, orb_true_r.
    apply Z.leb_le in Hd. rewrite Hd. split; [reflexivity|].
    now apply Z.leb_le.
  - destruct (timesOut w st) eqn:Ho.
    + exists 1%nat, (await st). cbn [pollLoop].
      rewrite iteration_waiting, Ho. split; [reflexivity|].
      now apply timesOut_deadline in Ho.
    + assert (Hc : iteration w qrCodeId state codeVerifier st = Continue (afterPoll w (await st))).
      { now rewrite iteration_waiting, Ho. }
      destruct (onTime_iteration w qrCodeId state codeVerifier _ _ Hi Hc)
        as (Hi' & Hl).
      destruct (IH (afterPoll w (await st)) Hi') as (fuel & st' & Hr & Hd).
      * rewrite Hl. lia.
      * rewrite Hl. now rewrite Nat.add_succ_l, <- Nat.add_succ_r.
      * exists (S fuel), st'. cbn [pollLoop].
        rewrite Hc. split; assumption.
Qed.

(** *** Checks that are shorter than the interval *)

Hypothesis short : forall n, Z.of_N (pollDuration w n) < pollInterval.

Lemma inStep_await st :
  inStep st ->
  (tickReady (await st) = false /\
   pollDeadline <= now (await st) < pollDeadline + pollInterval)
  \/ (await st = mkLoopState (pollInterval * (Z.of_nat (List.length (polls st)) + 1))
                             true (polls st)
      /\ pollInterval * (Z.of_nat (List.length (polls st)) + 1) <= pollDeadline).
Proof.
  intros (Ht & Hn & Hl). unfold await. rewrite Ht. cbn [orb].
  destruct (pollDeadline <=? now st) eqn:Hd.
  - left. apply Z.leb_le in Hd. split; [exact Ht|].
    rewrite pollDeadline_value in *. rewrite pollInterval_value in *. lia.
  - apply Z.leb_gt in Hd. rewrite (nextTick_exact _ _ Hn).
    destruct (_ <=? pollDeadline) eqn:En; cbn [now tickReady].
    + apply Z.leb_le in En. right. split; [reflexivity|exact En].
    + left. split; [reflexivity|]. rewrite pollInterval_value. lia.
Qed.

Lemma inStep_afterPoll st :
  inStep st ->
  pollInterval * (Z.of_nat (List.length (polls st)) + 1) <= pollDeadline ->
  inStep (afterPoll w (mkLoopState
            (pollInterval * (Z.of_nat (List.length (polls st)) + 1))
            true (polls st))).
Proof.
  intros (Ht & Hn & Hl) Hd. unfold inStep, afterPoll. cbn zeta.
  cbn [now tickReady polls List.length].
  pose proof (short (List.length (polls st))) as Hs.
  pose proof (N2Z.is_nonneg (pollDuration w (List.length (polls st)))) as H0.
  rewrite Nat2Z.inj_succ. unfold Z.succ. split; [|split].
  - apply (no_tick_between (Z.of_nat (List.length (polls st)) + 1));
      [reflexivity|lia].
  - lia.
  - rewrite pollDeadline_value in Hd. rewrite pollInterval_value in Hd. lia.
Qed.


End Waiting.

(** C8: when the status of the reply is none of AUTHORIZED, EXPIRED and
    CANCELED (PENDING, SCANNED, a name that is not known, no status at
    all), [checkQwenScanStatus] returns no credential and no error, and
    the turn of the loop that made the check goes on to the next one. *)
Theorem C8_other_status_waits w n qrCodeId state codeVerifier sc body statusResp :
  getStatus w n (statusURL qrCodeId) = Response sc body ->
  unmarshalStatusResponse body = Some statusResp ->
  Status (st_Data statusResp) <> "AUTHORIZED" ->
  Status (st_Data statusResp) <> "EXPIRED" ->
  Status (st_Data statusResp) <> "CANCELED" ->
  checkQwenScanStatus w n qrCodeId state codeVerifier = (None, None) /\
  forall st,
    List.length (polls st) = n -> timesOut w st = false ->
    iteration w qrCodeId state codeVerifier st
    = Continue (afterPoll w (await st)).
Proof.
  intros Hg Hu Ha He Hc.
  assert (Hw : reportsWaiting w n qrCodeId).
  { exists sc, body, statusResp. repeat split; assumption. }
  pose proof (check_waiting w n qrCodeId state codeVerifier Hw) as Hk.
  split; [exact Hk|].
  intros st Hl Ho. rewrite iteration_cases, Ho, polls_await, Hl, Hk.
  now rewrite (check_returns w n qrCodeId state codeVerifier _ _ _ Hg Hu Ha).
Qed.

Lemma C8_other_status_waits_witness :
  checkQwenScanStatus Stub.scanned 0 "q1" "state" "verifier" = (None, None) /\
  iteration Stub.scanned "q1" "state" "verifier" loopStart
  = Continue (afterPoll Stub.scanned (await loopStart)).
Proof.
  destruct (C8_other_status_waits Stub.scanned 0%nat "q1" "state" "verifier"
              StatusOK (Stub.statusBody "QR_CODE_SCANNED" "c0de")
              (mkStatusResponse "200" "OK"
                 (mkStatusData "QR_CODE_SCANNED" "c0de")))
    as (Hk & Hi); try reflexivity; try discriminate.
  split; [exact Hk|]. apply Hi; reflexivity.
Defined.

(** The other statuses that the claim names. *)
Lemma other_statuses_wait :
  forall status, In status ["PENDING"; "SCANNED"; "QR_CODE_SCANNED"; ""] ->
  checkQwenScanStatus (Stub.server (fun _ => status) Stub.tokenBody
                                   (Stub.ms 200) true)
                      0 "q1" "state" "verifier" = (None, None).
Proof.
  intros status H. cbn in H.
  destruct H as [<-|[<-|[<-|[<-|[]]]]]; vm_compute; reflexivity.
Qed.

(** C9: no status check is made before one interval of 3 seconds has
    passed since the loop began; the first check is made at that instant,
    and the loop does not return before it. *)
Theorem C9_first_check_after_interval w qrCodeId state codeVerifier fuel :
  Forall (fun t => pollInterval <= t)
         (polls (stateOf (pollLoop w qrCodeId state codeVerifier fuel loopStart)))
  /\ (forall r st,
        pollLoop w qrCodeId state codeVerifier fuel loopStart = Return r st ->
        pollInterval <= now st)
  /\ polls (stateOf (iteration w qrCodeId state codeVerifier loopStart))
     = [pollInterval].
Proof.
  destruct (onTime_pollLoop w qrCodeId state codeVerifier fuel loopStart
                            onTime_start) as ((_ & _ & Hp) & Hr).
  split; [exact Hp|]. split; [exact Hr|].
  rewrite iteration_cases.
  assert (Ho : timesOut w loopStart = false) by reflexivity.
  assert (Ha : afterPoll w (await loopStart)
               = mkLoopState (pollInterval + Z.of_N (pollDuration w 0))
                   (pollInterval / pollInterval
                    <? (pollInterval + Z.of_N (pollDuration w 0)) / pollInterval)
                   [pollInterval]) by reflexivity.
  rewrite Ho, Ha.
  destruct (checkReturns _ _ _ _ _); [|reflexivity].
  destruct (checkQwenScanStatus _ _ _ _ _) as [[c|] [e|]]; reflexivity.
Qed.




(** With checks of any length the loop returns the timeout, not before the
    deadline, as soon as a [select] that finds both channels ready takes
    the deadline. *)
Lemma waiting_times_out_late w qrCodeId state codeVerifier k :
  (forall n, reportsWaiting w n qrCodeId) ->
  (200 <= k)%nat -> selectDeadline w k = true ->
  exists fuel st,
    pollLoop w qrCodeId state codeVerifier fuel loopStart
    = Return (None, Some ErrScanTimeout) st /\
    pollDeadline <= now st.
Proof.
  intros Hw Hk Hs.
  apply (waiting_until_deadline_taken w qrCodeId state codeVerifier Hw k
           loopStart onTime_start); assumption.
Qed.



(** The turn that sees EXPIRED or CANCELED goes on like any other: the error
    of the check is dropped. *)
Lemma expired_goes_on w qrCodeId state codeVerifier st sc body statusResp :
  getStatus w (List.length (polls st)) (statusURL qrCodeId) = Response sc body ->
  unmarshalStatusResponse body = Some statusResp ->
  Status (st_Data statusResp) = "EXPIRED"
  \/ Status (st_Data statusResp) = "CANCELED" ->
  timesOut w st = false ->
  iteration w qrCodeId state codeVerifier st = Continue (afterPoll w (await st)).
Proof.
  intros Hg Hu Hs Ho.
  rewrite iteration_cases, Ho, polls_await.
  rewrite (check_expired _ _ _ state codeVerifier _ _ _ Hg Hu Hs).
  rewrite (check_returns _ _ _ state codeVerifier _ _ _ Hg Hu);
    [reflexivity|].
  destruct Hs as [-> | ->]; discriminate.
Qed.

(** The sequence of section 8 of the spec ends in a credential with the
    token that the server has issued, at the fourth check. *)
Lemma login_authorized :
  LoginQwenQRCode Stub.authorizing 3 = Polling /\
  LoginQwenQRCode Stub.authorizing 4
  = Done (Some (mkAuthCredential "sk-1" "r-1"
                  (Stub.wallClock + 3600 * GoTime.Second)
                  "qwen" "oauth" ""), None).
Proof. split; vm_compute; reflexivity. Qed.

(** C2: the flow should fail as soon as a check sees EXPIRED.  With a
    server that answers EXPIRED from the first check on, the check returns
    its error, the loop drops it and goes on: the login is still polling
    after 199 turns and returns the timeout at the deadline, after 199
    status checks. *)
Theorem C2_expired_polled_until_deadline :
  checkQwenScanStatus Stub.expired 0 "q1" "state" "verifier"
  = (None, Some ErrExpiredOrCanceled) /\
  LoginQwenQRCode Stub.expired 1 = Polling /\
  LoginQwenQRCode Stub.expired 199 = Polling /\
  LoginQwenQRCode Stub.expired 200 = Done (None, Some ErrScanTimeout) /\
  exists st,
    pollLoop Stub.expired "q1" "state" "verifier" 200 loopStart
    = Return (None, Some ErrScanTimeout) st /\
    now st = pollDeadline /\
    List.length (polls st) = 199%nat.
Proof.
  split; [vm_compute; reflexivity|].
  split; [vm_compute; reflexivity|].
  split; [vm_compute; reflexivity|].
  split; [vm_compute; reflexivity|].
  eexists. split; [vm_compute; reflexivity|].
  split; vm_compute; reflexivity.
Qed.

(** ** Base64: decoding what has been encoded *)

Lemma lor_add (x b n : Z) :
  0 <= n -> x mod 2 ^ n = 0 -> 0 <= b < 2 ^ n -> Z.lor x b = x + b.
Proof.
  intros Hn Hx Hb.
  assert (Hl : Z.land x b = 0).
  { apply Z.bits_inj'. intros m Hm. rewrite Z.land_spec, Z.bits_0.
    destruct (Z.lt_ge_cases m n) as [Hlt|Hge].
    - assert (Hxm : Z.testbit x m = false).
      { rewrite (Z.div_mod x (2 ^ n)) by lia. rewrite Hx, Z.add_0_r.
        rewrite Z.mul_comm. apply Z.mul_pow2_bits_low. lia. }
      now rewrite Hxm.
    - assert (Hbm : Z.testbit b m = false).
      { destruct (Z.eq_dec b 0) as [->|Hb0]; [apply Z.bits_0|].
        apply Z.bits_above_log2; [lia|].
        assert (Z.log2 b < n) by (apply Z.log2_lt_pow2; lia). lia. }
      rewrite Hbm. apply andb_false_r. }
  pose proof (Z.add_lor_land x b). lia.
Qed.

Lemma encode_val3 (b0 b1 b2 : Z) :
  0 <= b0 < 256 -> 0 <= b1 < 256 -> 0 <= b2 < 256 ->
  Z.lor (Z.lor (Z.shiftl b0 16) (Z.shiftl b1 8)) b2
  = b0 * 65536 + b1 * 256 + b2.
Proof.
  intros H0 H1 H2. rewrite !Z.shiftl_mul_pow2 by lia.
  change (2 ^ 16) with 65536. change (2 ^ 8) with 256.
  rewrite (lor_add (b0 * 65536) (b1 * 256) 16); [|lia| |].
  - rewrite (lor_add _ b2 8); [reflexivity|lia| |].
    + change (2 ^ 8) with 256. Z.div_mod_to_equations. lia.
    + change (2 ^ 8) with 256. lia.
  - change (2 ^ 16) with 65536. Z.div_mod_to_equations. lia.
  - change (2 ^ 16) with 65536. lia.
Qed.

Lemma sextet (x k : Z) : 0 <= k -> Z.land (Z.shiftr x k) 0x3F = (x / 2 ^ k) mod 64.
Proof.
  intros Hk. rewrite Z.shiftr_div_pow2 by lia.
  change 0x3F with (Z.ones 6). rewrite Z.land_ones by lia. reflexivity.
Qed.

Lemma assemble_value (d0 d1 d2 d3 : Z) :
  0 <= d0 < 64 -> 0 <= d1 < 64 -> 0 <= d2 < 64 -> 0 <= d3 < 64 ->
  Z.lor (Z.lor (Z.lor (Z.shiftl d0 18) (Z.shiftl d1 12)) (Z.shiftl d2 6)) d3
  = d0 * 262144 + d1 * 4096 + d2 * 64 + d3.
Proof.
  intros H0 H1 H2 H3.
  rewrite !Z.shiftl_mul_pow2 by lia.
  change (2 ^ 18) with 262144. change (2 ^ 12) with 4096.
  change (2 ^ 6) with 64.
  rewrite (lor_add (d0 * 262144) (d1 * 4096) 18);
    [|lia|change (2 ^ 18) with 262144; Z.div_mod_to_equations; lia
      |change (2 ^ 18) with 262144; lia].
  rewrite (lor_add _ (d2 * 64) 12);
    [|lia|change (2 ^ 12) with 4096; Z.div_mod_to_equations; lia
      |change (2 ^ 12) with 4096; lia].
  rewrite (lor_add _ d3 6);
    [|lia|change (2 ^ 6) with 64; Z.div_mod_to_equations; lia
      |change (2 ^ 6) with 64; lia].
  reflexivity.
Qed.

Ltac assemble_arith :=
  rewrite !Z.shiftr_div_pow2 by lia;
  change (2 ^ 16) with 65536; change (2 ^ 8) with 256;
  repeat match goal with |- _ :: _ = _ :: _ => f_equal end;
  Z.div_mod_to_equations; lia.

Lemma assemble4 (d0 d1 d2 d3 : Z) :
  0 <= d0 < 64 -> 0 <= d1 < 64 -> 0 <= d2 < 64 -> 0 <= d3 < 64 ->
  Base64.assemble [d0; d1; d2; d3]
  = [ (d0 * 4 + d1 / 16) mod 256; (d1 * 16 + d2 / 4) mod 256;
      (d2 * 64 + d3) mod 256 ].
Proof.
  intros H0 H1 H2 H3. unfold Base64.assemble.
  change (firstn _ ?l) with l. cbn [nth].
  rewrite assemble_value by assumption. assemble_arith.
Qed.

Lemma assemble3 (d0 d1 d2 : Z) :
  0 <= d0 < 64 -> 0 <= d1 < 64 -> 0 <= d2 < 64 ->
  Base64.assemble [d0; d1; d2]
  = [ (d0 * 4 + d1 / 16) mod 256; (d1 * 16 + d2 / 4) mod 256 ].
Proof.
  intros H0 H1 H2. unfold Base64.assemble.
  change (firstn _ [?a; ?b; ?c]) with [a; b]. cbn [nth].
  rewrite assemble_value by (assumption || lia). assemble_arith.
Qed.

Lemma assemble2 (d0 d1 : Z) :
  0 <= d0 < 64 -> 0 <= d1 < 64 ->
  Base64.assemble [d0; d1] = [ (d0 * 4 + d1 / 16) mod 256 ].
Proof.
  intros H0 H1. unfold Base64.assemble.
  change (firstn _ [?a; ?b; ?c]) with [a]. cbn [nth].
  rewrite assemble_value by (assumption || lia). assemble_arith.
Qed.

Lemma list_ind3 {A : Type} (P : list A -> Prop) :
  P [] -> (forall a, P [a]) -> (forall a b, P [a; b]) ->
  (forall a b c l, P l -> P (a :: b :: c :: l)) ->
  forall l, P l.
Proof.
  intros H0 H1 H2 H3.
  assert (H : forall l, P l /\ (forall a, P (a :: l)) /\ (forall a b, P (a :: b :: l))).
  { induction l as [|x l (IH0 & IH1 & IH2)].
    - repeat split; auto.
    - repeat split; auto. }
  intros l. apply H.
Qed.

Lemma decodeMap_stdChar (k : nat) :
  (k < 64)%nat ->
  Base64.decodeMap Base64.StdEncoding (stdChar k) = Some (Z.of_nat k).
Proof.
  intros H.
  do 64 (destruct k as [|k]; [vm_compute; reflexivity|]). lia.
Qed.

Lemma encodeChar_std (x : Z) :
  Base64.encodeChar Base64.StdEncoding x = stdChar (Z.to_nat (Z.land x 0x3F)).
Proof. reflexivity. Qed.

Lemma land63_range (x : Z) : 0 <= Z.land x 0x3F < 64.
Proof.
  change 0x3F with (Z.ones 6). rewrite Z.land_ones by lia.
  change (2 ^ 6) with 64. apply Z.mod_pos_bound. lia.
Qed.

Lemma decodeMap_encodeChar (x : Z) :
  Base64.decodeMap Base64.StdEncoding (Base64.encodeChar Base64.StdEncoding x)
  = Some (Z.land x 0x3F).
Proof.
  rewrite encodeChar_std. pose proof (land63_range x) as H.
  rewrite decodeMap_stdChar by lia. rewrite Z2Nat.id by lia. reflexivity.
Qed.

(** One full quantum. *)
Lemma decodeLoop_quantum (c0 c1 c2 c3 : ascii) (d0 d1 d2 d3 : Z) rest :
  Base64.decodeMap Base64.StdEncoding c0 = Some d0 ->
  Base64.decodeMap Base64.StdEncoding c1 = Some d1 ->
  Base64.decodeMap Base64.StdEncoding c2 = Some d2 ->
  Base64.decodeMap Base64.StdEncoding c3 = Some d3 ->
  Base64.decodeLoop Base64.StdEncoding [] (c0 :: c1 :: c2 :: c3 :: rest)
  = match Base64.decodeLoop Base64.StdEncoding [] rest with
    | Some tl => Some (Base64.assemble [d0; d1; d2; d3] ++ tl)%list
    | None => None
    end.
Proof.
  intros H0 H1 H2 H3. cbn [Base64.decodeLoop].
  rewrite H0. cbn [app]. rewrite H1. cbn [app]. rewrite H2. cbn [app].
  rewrite H3. reflexivity.
Qed.

Lemma decoded_quantum (b0 b1 b2 : Z) :
  0 <= b0 < 256 -> 0 <= b1 < 256 -> 0 <= b2 < 256 ->
  let val := Z.lor (Z.lor (Z.shiftl b0 16) (Z.shiftl b1 8)) b2 in
  Base64.assemble [Z.land (Z.shiftr val 18) 0x3F; Z.land (Z.shiftr val 12) 0x3F;
                   Z.land (Z.shiftr val 6) 0x3F; Z.land val 0x3F]
  = [b0; b1; b2].
Proof.
  intros H0 H1 H2 val. subst val. rewrite encode_val3 by assumption.
  rewrite assemble4 by apply land63_range.
  rewrite !sextet by lia.
  change 0x3F with (Z.ones 6). rewrite Z.land_ones by lia.
  change (2 ^ 18) with 262144. change (2 ^ 12) with 4096.
  change (2 ^ 6) with 64.
  repeat match goal with |- _ :: _ = _ :: _ => f_equal end;
    Z.div_mod_to_equations; lia.
Qed.

Lemma decoded_rest2 (b0 b1 : Z) :
  0 <= b0 < 256 -> 0 <= b1 < 256 ->
  let val := Z.lor (Z.shiftl b0 16) (Z.shiftl b1 8) in
  Base64.assemble [Z.land (Z.shiftr val 18) 0x3F; Z.land (Z.shiftr val 12) 0x3F;
                   Z.land (Z.shiftr val 6) 0x3F]
  = [b0; b1].
Proof.
  intros H0 H1 val.
  assert (Hv : val = b0 * 65536 + b1 * 256 + 0).
  { rewrite <- encode_val3 by lia. subst val. now rewrite Z.lor_0_r. }
  rewrite Hv. rewrite assemble3 by apply land63_range.
  rewrite !sextet by lia.
  change (2 ^ 18) with 262144. change (2 ^ 12) with 4096.
  change (2 ^ 6) with 64.
  repeat match goal with |- _ :: _ = _ :: _ => f_equal end;
    Z.div_mod_to_equations; lia.
Qed.

Lemma decoded_rest1 (b0 : Z) :
  0 <= b0 < 256 ->
  let val := Z.shiftl b0 16 in
  Base64.assemble [Z.land (Z.shiftr val 18) 0x3F; Z.land (Z.shiftr val 12) 0x3F]
  = [b0].
Proof.
  intros H0 val.
  assert (Hv : val = b0 * 65536 + 0 * 256 + 0).
  { rewrite <- encode_val3 by lia. subst val.
    now rewrite Z.shiftl_0_l, !Z.lor_0_r. }
  rewrite Hv. rewrite assemble2 by apply land63_range.
  rewrite !sextet by lia.
  change (2 ^ 18) with 262144. change (2 ^ 12) with 4096.
  repeat match goal with |- _ :: _ = _ :: _ => f_equal end;
    Z.div_mod_to_equations; lia.
Qed.

(** Decoding, with the standard alphabet, what has been encoded with it and
    padded gives the bytes back. *)
Lemma decode_encode_std (bs : list Z) :
  Forall inRange bs ->
  Base64.DecodeString Base64.StdEncoding
    (Base64.EncodeToString Base64.StdEncoding bs) = Some bs.
Proof.
  unfold Base64.DecodeString.
  induction bs as [|b0|b0 b1|b0 b1 b2 bs IH] using list_ind3; intros Hr.
  - reflexivity.
  - inversion Hr as [|? ? H0 _]; subst.
    cbn [Base64.EncodeToString list_ascii_of_string Base64.decodeLoop].
    rewrite decodeMap_encodeChar. cbn [app].
    rewrite decodeMap_encodeChar. cbn [app].
    cbn -[Base64.assemble Z.shiftl Z.shiftr Z.land].
    f_equal. apply decoded_rest1. exact H0.
  - inversion Hr as [|? ? H0 Hr']; subst.
    inversion Hr' as [|? ? H1 _]; subst.
    cbn [Base64.EncodeToString list_ascii_of_string Base64.decodeLoop].
    rewrite decodeMap_encodeChar. cbn [app].
    rewrite decodeMap_encodeChar. cbn [app].
    rewrite decodeMap_encodeChar. cbn [app].
    cbn -[Base64.assemble Z.shiftl Z.shiftr Z.land Z.lor].
    f_equal. apply decoded_rest2; assumption.
  - inversion Hr as [|? ? H0 Hr']; subst.
    inversion Hr' as [|? ? H1 Hr'']; subst.
    inversion Hr'' as [|? ? H2 Hr3]; subst.
    cbn [Base64.EncodeToString list_ascii_of_string].
    rewrite (decodeLoop_quantum _ _ _ _ _ _ _ _ _
               (decodeMap_encodeChar _) (decodeMap_encodeChar _)
               (decodeMap_encodeChar _) (decodeMap_encodeChar _)).
    rewrite (IH Hr3). rewrite decoded_quantum by assumption. reflexivity.
Qed.

Lemma encodeChar_url (x : Z) :
  Base64.encodeChar (Base64.WithPadding Base64.URLEncoding Base64.NoPadding) x
  = urlChar (Z.to_nat (Z.land x 0x3F)).
Proof. reflexivity. Qed.

Lemma stdChar_urlChar (k : nat) :
  (k < 64)%nat -> stdChar k = toStd (urlChar k).
Proof.
  intros H. do 64 (destruct k as [|k]; [reflexivity|]). lia.
Qed.

Lemma urlChar_not_dot (k : nat) :
  (k < 64)%nat -> Ascii.eqb (urlChar k) "." = false.
Proof.
  intros H. do 64 (destruct k as [|k]; [reflexivity|]). lia.
Qed.

Lemma stdChar_not_dot (k : nat) :
  (k < 64)%nat -> Ascii.eqb (stdChar k) "." = false.
Proof.
  intros H. do 64 (destruct k as [|k]; [reflexivity|]). lia.
Qed.

Lemma index63 (x : Z) : (Z.to_nat (Z.land x 0x3F) < 64)%nat.
Proof. pose proof (land63_range x). lia. Qed.

(** The characters of an encoding are not dots. *)
Lemma encode_std_no_dot (bs : list Z) :
  contains "." (Base64.EncodeToString rawStd bs) = false.
Proof.
  induction bs as [|b0|b0 b1|b0 b1 b2 bs IH] using list_ind3;
    cbn [Base64.EncodeToString contains Base64.padding Base64.padChar rawStd
         Base64.WithPadding Base64.NoPadding];
    change (Base64.encodeChar _ ?x) with (stdChar (Z.to_nat (Z.land x 0x3F)));
    rewrite ?stdChar_not_dot by apply index63; try reflexivity.
  exact IH.
Qed.

Lemma addPadding_quantum (c0 c1 c2 c3 : ascii) (s : string) :
  addPadding (String c0 (String c1 (String c2 (String c3 s))))
  = String c0 (String c1 (String c2 (String c3 (addPadding s)))).
Proof.
  unfold addPadding. cbn [String.length].
  replace (S (S (S (S (String.length s)))))
    with (String.length s + 1 * 4)%nat by lia.
  rewrite Nat.Div0.mod_add.
  destruct (String.length s mod 4)%nat as [|[|[|[|n]]]]; reflexivity.
Qed.

(** Padding an encoding without padding gives the encoding with padding. *)
Lemma addPadding_encode (bs : list Z) :
  addPadding (Base64.EncodeToString rawStd bs)
  = Base64.EncodeToString Base64.StdEncoding bs.
Proof.
  induction bs as [|b0|b0 b1|b0 b1 b2 bs IH] using list_ind3;
    try reflexivity.
  cbn [Base64.EncodeToString]. rewrite addPadding_quantum, IH. reflexivity.
Qed.

Lemma encode_url_no_dot (bs : list Z) :
  contains "." (base64URLEncode bs) = false.
Proof.
  unfold base64URLEncode.
  induction bs as [|b0|b0 b1|b0 b1 b2 bs IH] using list_ind3;
    cbn [Base64.EncodeToString contains Base64.padding Base64.padChar
         Base64.WithPadding Base64.NoPadding];
    rewrite ?encodeChar_url;
    rewrite ?urlChar_not_dot by apply index63; try reflexivity.
  exact IH.
Qed.

(** The two alphabets differ in two characters. *)
Lemma encode_std_url (bs : list Z) :
  Base64.EncodeToString rawStd bs = mapString toStd (base64URLEncode bs).
Proof.
  unfold base64URLEncode.
  induction bs as [|b0|b0 b1|b0 b1 b2 bs IH] using list_ind3;
    cbn [Base64.EncodeToString mapString Base64.padding Base64.padChar rawStd
         Base64.WithPadding Base64.NoPadding];
    rewrite ?encodeChar_url;
    rewrite <- ?stdChar_urlChar by apply index63;
    try reflexivity.
  now rewrite <- IH.
Qed.

Lemma mapString_toStd (s : string) :
  usesUrlAlphabet s = false -> mapString toStd s = s.
Proof.
  unfold usesUrlAlphabet. induction s as [|c s IH]; [reflexivity|].
  cbn [contains mapString]. intros H.
  apply orb_false_iff in H. destruct H as [H1 H2].
  apply orb_false_iff in H1, H2. destruct H1 as [Hc1 H1], H2 as [Hc2 H2].
  rewrite IH by (now rewrite H1, H2).
  unfold toStd. now rewrite Hc1, Hc2.
Qed.

(** An encoding with the URL-safe alphabet in which no character of that
    alphabet only occurs is the encoding with the standard alphabet. *)
Lemma url_encode_std (bs : list Z) :
  usesUrlAlphabet (base64URLEncode bs) = false ->
  base64URLEncode bs = Base64.EncodeToString rawStd bs.
Proof.
  intros H. rewrite encode_std_url. now rewrite mapString_toStd.
Qed.

(** The standard decoder rejects every input with a character that only the
    URL-safe alphabet has. *)
Lemma skipNewlines_keeps (c : ascii) (src : list ascii) :
  Base64.isNewline c = false -> In c src -> In c (Base64.skipNewlines src).
Proof.
  intros Hc. induction src as [|d src IH]; [intros []|].
  intros Hin. cbn [Base64.skipNewlines].
  destruct (Base64.isNewline d) eqn:Hd; [|exact Hin].
  destruct Hin as [->|Hin]; [congruence|now apply IH].
Qed.

Lemma decodeLoop_rejects (c : ascii) :
  Base64.decodeMap Base64.StdEncoding c = None ->
  Base64.isNewline c = false ->
  Base64.isPad Base64.StdEncoding c = false ->
  forall src dbuf,
    In c src -> Base64.decodeLoop Base64.StdEncoding dbuf src = None.
Proof.
  intros Hm Hn Hp. induction src as [|d src IH]; intros dbuf Hin.
  { destruct Hin. }
  cbn [Base64.decodeLoop].
  destruct (Base64.decodeMap Base64.StdEncoding d) as [out|] eqn:Hd.
  - assert (Hs : In c src) by (destruct Hin as [->|H]; [congruence|exact H]).
    destruct dbuf as [|? [|? [|? [|? ?]]]]; rewrite ?IH by exact Hs; reflexivity.
  - destruct (Base64.isNewline d) eqn:Hnd.
    + apply IH. destruct Hin as [->|H]; [congruence|exact H].
    + destruct (Base64.isPad Base64.StdEncoding d) eqn:Hpd; [|reflexivity].
      assert (Hs : In c src) by (destruct Hin as [->|H]; [congruence|exact H]).
      pose proof (skipNewlines_keeps c src Hn Hs) as Hk.
      destruct dbuf as [|? [|? [|? [|? ?]]]]; try reflexivity.
      * destruct (Base64.skipNewlines src) as [|p rest']; [destruct Hk|].
        destruct (Base64.isPad Base64.StdEncoding p) eqn:Hpp; [|reflexivity].
        assert (Hr : In c rest') by (destruct Hk as [->|H]; [congruence|exact H]).
        pose proof (skipNewlines_keeps c rest' Hn Hr) as Hk'.
        destruct (Base64.skipNewlines rest'); [destruct Hk'|reflexivity].
      * destruct (Base64.skipNewlines src); [destruct Hk|reflexivity].
Qed.

Lemma contains_In (c : ascii) (s : string) :
  contains c s = true <-> In c (list_ascii_of_string s).
Proof.
  induction s as [|d s IH]; cbn [contains list_ascii_of_string In].
  - split; [discriminate|intros []].
  - rewrite orb_true_iff, IH, Ascii.eqb_eq. reflexivity.
Qed.

Lemma contains_app (c : ascii) (s t : string) :
  contains c (s ++ t) = contains c s || contains c t.
Proof.
  induction s as [|d s IH]; [reflexivity|].
  cbn [append contains]. now rewrite IH, orb_assoc.
Qed.

Lemma addPadding_app (s : string) : exists p, addPadding s = s ++ p.
Proof.
  unfold addPadding.
  destruct (String.length s mod 4)%nat as [|[|[|[|n]]]];
    try (exists ""; symmetry; induction s as [|? ? IH]; cbn; congruence);
    eexists; reflexivity.
Qed.

Lemma decode_url_only (s : string) :
  usesUrlAlphabet s = true ->
  Base64.DecodeString Base64.StdEncoding (addPadding s) = None.
Proof.
  unfold usesUrlAlphabet, Base64.DecodeString. intros H.
  destruct (addPadding_app s) as (p & ->).
  apply orb_true_iff in H. destruct H as [H|H].
  - apply (decodeLoop_rejects "-"); try reflexivity.
    apply contains_In. now rewrite contains_app, H.
  - apply (decodeLoop_rejects "_"); try reflexivity.
    apply contains_In. now rewrite contains_app, H.
Qed.

Lemma append_nil_r (s : string) : s ++ "" = s.
Proof. induction s as [|c s IH]; cbn; congruence. Qed.

Lemma append_assoc (s t u : string) : (s ++ t) ++ u = s ++ (t ++ u).
Proof. induction s as [|c s IH]; cbn; congruence. Qed.

Lemma splitAcc_segment (sep : ascii) (s : string) : forall cur rest,
  contains sep s = false ->
  Strings.splitAcc sep cur (s ++ String sep rest)
  = (cur ++ s) :: Strings.splitAcc sep "" rest.
Proof.
  induction s as [|c s IH]; intros cur rest H.
  - cbn [append Strings.splitAcc]. now rewrite Ascii.eqb_refl, append_nil_r.
  - cbn [contains] in H. apply orb_false_iff in H. destruct H as [Hc Hs].
    cbn [append Strings.splitAcc]. rewrite Hc.
    rewrite IH by exact Hs. now rewrite append_assoc.
Qed.

Lemma byte_of_ascii_range c : 0 <= byte_of_ascii c < 256.
Proof.
  unfold byte_of_ascii.
  pose proof (N_ascii_bounded c) as H.
  lia.
Qed.

Lemma ascii_of_byte_of_ascii c : ascii_of_byte (byte_of_ascii c) = c.
Proof.
  unfold ascii_of_byte.
  rewrite Z.mod_small by apply byte_of_ascii_range.
  unfold byte_of_ascii. rewrite N2Z.id. apply ascii_N_embedding.
Qed.

Lemma string_of_bytes_of_string s : string_of_bytes (bytes_of_string s) = s.
Proof.
  unfold string_of_bytes, bytes_of_string.
  rewrite map_map.
  rewrite (map_ext _ (fun c => c)) by apply ascii_of_byte_of_ascii.
  rewrite map_id. apply string_of_list_ascii_of_string.
Qed.

Lemma bytes_of_string_range s : Forall inRange (bytes_of_string s).
Proof.
  unfold bytes_of_string. apply Forall_forall. intros b Hb.
  apply in_map_iff in Hb. destruct Hb as (c & <- & _).
  apply byte_of_ascii_range.
Qed.

(** The claims of a token in three parts whose payload is the unpadded
    URL-safe base64 of the text [js]: the payload is decoded if and only if
    its encoding has no character that only the URL-safe alphabet has. *)
Lemma decodeClaims_token (header js signature : string) :
  contains "." header = false ->
  decodeClaims (header ++ "." ++ base64URLEncode (bytes_of_string js)
                ++ "." ++ signature)
  = if usesUrlAlphabet (base64URLEncode (bytes_of_string js)) then None
    else UnmarshalMap js.
Proof.
  intros Hh. unfold decodeClaims, Strings.Split. cbn zeta.
  cbn [append].
  rewrite (splitAcc_segment _ _ _ _ Hh).
  rewrite (splitAcc_segment _ _ _ _ (encode_url_no_dot _)).
  cbn [List.length Nat.ltb Nat.leb nth append].
  destruct (usesUrlAlphabet _) eqn:Hu.
  - now rewrite decode_url_only.
  - rewrite url_encode_std by exact Hu.
    rewrite addPadding_encode.
    rewrite decode_encode_std by apply bytes_of_string_range.
    now rewrite string_of_bytes_of_string.
Qed.

Lemma extract_token (header js signature : string) :
  contains "." header = false ->
  extractQwenAccountID (header ++ "." ++ base64URLEncode (bytes_of_string js)
                        ++ "." ++ signature)
  = if usesUrlAlphabet (base64URLEncode (bytes_of_string js)) then ""
    else match UnmarshalMap js with
         | Some claims =>
             match lookup "sub" claims with
             | Some (Str sub) => sub
             | _ => ""
             end
         | None => ""
         end.
Proof.
  intros Hh. unfold extractQwenAccountID.
  rewrite decodeClaims_token by exact Hh.
  destruct (usesUrlAlphabet _); reflexivity.
Qed.

(** ** The account id *)

Lemma extract_cases accessToken :
  match decodeClaims accessToken with
  | None => extractQwenAccountID accessToken = ""
  | Some claims =>
      match lookup "sub" claims with
      | Some (Str sub) => extractQwenAccountID accessToken = sub
      | _ => extractQwenAccountID accessToken = ""
      end
  end.
Proof.
  unfold extractQwenAccountID.
  destruct (decodeClaims accessToken) as [claims|]; [|reflexivity].
  destruct (lookup "sub" claims) as [[]|]; reflexivity.
Qed.

(** Tokens that are not well formed give the empty string. *)
Lemma extract_malformed accessToken :
  (List.length (Strings.Split accessToken ".") < 2)%nat
  \/ Base64.DecodeString Base64.StdEncoding
       (addPadding (nth 1 (Strings.Split accessToken ".") "")) = None
  \/ (exists decoded,
        Base64.DecodeString Base64.StdEncoding
          (addPadding (nth 1 (Strings.Split accessToken ".") "")) = Some decoded
        /\ UnmarshalMap (string_of_bytes decoded) = None)
  \/ (exists claims,
        decodeClaims accessToken = Some claims /\ lookup "sub" claims = None) ->
  extractQwenAccountID accessToken = "".
Proof.
  unfold extractQwenAccountID.
  intros [H | [H | [(d & H1 & H2) | (claims & H1 & H2)]]].
  - unfold decodeClaims. cbn zeta. apply Nat.ltb_lt in H. now rewrite H.
  - unfold decodeClaims. cbn zeta. rewrite H.
    now destruct (_ <? _)%nat.
  - unfold decodeClaims. cbn zeta. rewrite H1, H2.
    now destruct (_ <? _)%nat.
  - now rewrite H1, H2.
Qed.

Lemma extract_examples :
  extractQwenAccountID (Stub.jwt Stub.plainPayload) = "1001" /\
  extractQwenAccountID "sk-1" = "" /\
  extractQwenAccountID "abc.!!!.sig" = "" /\
  extractQwenAccountID (Stub.jwt "not json") = "" /\
  extractQwenAccountID (Stub.jwt (dq "{'name':'Wang Fang'}")) = "".
Proof. repeat split; vm_compute; reflexivity. Qed.

(** C10: when [extractQwenAccountID] returns a string that is not empty,
    the payload has been decoded to a map in which sub is that string; and
    when sub is in the map with a value that is not a string (a number, a
    boolean, an object, an array, null), the result is empty. *)
Theorem C10_sub_is_a_string accessToken :
  (extractQwenAccountID accessToken <> "" ->
   exists claims,
     decodeClaims accessToken = Some claims /\
     lookup "sub" claims = Some (Str (extractQwenAccountID accessToken))) /\
  (forall claims v,
     decodeClaims accessToken = Some claims ->
     lookup "sub" claims = Some v ->
     (forall s, v <> Str s) ->
     extractQwenAccountID accessToken = "").
Proof.
  pose proof (extract_cases accessToken) as H. split.
  - intros Hne.
    destruct (decodeClaims accessToken) as [claims|]; [|contradiction].
    exists claims. split; [reflexivity|].
    destruct (lookup "sub" claims) as [[]|]; try contradiction.
    now rewrite H.
  - intros claims v Hd Hl Hv. rewrite Hd, Hl in H.
    destruct v; try exact H. now destruct (Hv s).
Qed.

Lemma C10_sub_is_a_string_witness :
  decodeClaims (Stub.jwt Stub.numericSubPayload)
  = Some [("sub", Number "1001")] /\
  extractQwenAccountID (Stub.jwt Stub.numericSubPayload) = "".
Proof.
  split; [reflexivity|].
  apply (proj2 (C10_sub_is_a_string (Stub.jwt Stub.numericSubPayload))
               [("sub", Number "1001")] (Number "1001")).
  - reflexivity.
  - reflexivity.
  - discriminate.
Defined.

(** C5: the account id of a token whose second part is the URL-safe base64
    of a JSON object with a string sub should be that sub.  The payload is
    decoded with the standard alphabet: a payload whose encoding has a
    character of the URL-safe alphabet only is not decoded, and the account
    id is empty. *)
Theorem C5_urlsafe_payload_rejected :
  Stub.jwt Stub.namedPayload
  = "abc.eyJzdWIiOiIxMDAxIiwibmFtZSI6IueOi-iKsyJ9.sig" /\
  UnmarshalMap Stub.namedPayload
  = Some [("sub", Str "1001"); ("name", Str "王芳")] /\
  Base64.DecodeString Base64.StdEncoding
    (addPadding "eyJzdWIiOiIxMDAxIiwibmFtZSI6IueOi-iKsyJ9") = None /\
  option_map string_of_bytes
    (Base64.DecodeString Base64.URLEncoding
       (addPadding "eyJzdWIiOiIxMDAxIiwibmFtZSI6IueOi-iKsyJ9"))
  = Some Stub.namedPayload /\
  extractQwenAccountID (Stub.jwt Stub.namedPayload) = "".
Proof.
  repeat split; vm_compute; reflexivity.
Qed.

(** * Further properties *)

(** ** The state and the verifier *)

Lemma hex_length (l : list Z) :
  String.length (Hex.EncodeToString l) = (2 * List.length l)%nat.
Proof.
  induction l as [|b l IH]; [reflexivity|].
  cbn [Hex.EncodeToString String.length List.length]. rewrite IH. lia.
Qed.

Lemma digit_isHex (x : Z) : isHexDigit (Hex.digit x) = true.
Proof.
  unfold Hex.digit. generalize (Z.to_nat x). intros k.
  do 17 (destruct k as [|k]; [reflexivity|]). reflexivity.
Qed.

Lemma hex_chars (l : list Z) :
  allChars isHexDigit (Hex.EncodeToString l) = true.
Proof.
  induction l as [|b l IH]; [reflexivity|].
  cbn [Hex.EncodeToString allChars]. now rewrite !digit_isHex, IH.
Qed.

Lemma hexVal_digit (k : nat) :
  (k < 16)%nat ->
  Json.hexVal (byte_of_ascii (Hex.digit (Z.of_nat k))) = Some (Z.of_nat k).
Proof.
  intros H. do 16 (destruct k as [|k]; [reflexivity|]). lia.
Qed.

Lemma digit_inj (x y : Z) :
  0 <= x < 16 -> 0 <= y < 16 -> Hex.digit x = Hex.digit y -> x = y.
Proof.
  intros Hx Hy H.
  pose proof (hexVal_digit (Z.to_nat x) ltac:(lia)) as Ex.
  pose proof (hexVal_digit (Z.to_nat y) ltac:(lia)) as Ey.
  rewrite Z2Nat.id in Ex, Ey by lia. rewrite H in Ex. congruence.
Qed.

Lemma hex_inj (a : list Z) : forall b,
  Forall inRange a -> Forall inRange b ->
  Hex.EncodeToString a = Hex.EncodeToString b -> a = b.
Proof.
  induction a as [|x a IH]; intros [|y b] Ha Hb H; try discriminate.
  - reflexivity.
  - inversion Ha as [|? ? Hx Ha']; inversion Hb as [|? ? Hy Hb']; subst.
    cbn [Hex.EncodeToString] in H. injection H as H1 H2 H3.
    unfold inRange in Hx, Hy.
    apply digit_inj in H1; [|Z.div_mod_to_equations; lia..].
    apply digit_inj in H2; [|Z.div_mod_to_equations; lia..].
    f_equal; [|now apply IH].
    rewrite (Z.div_mod x 16), (Z.div_mod y 16) by lia. now rewrite H1, H2.
Qed.

(** X1: when [rand.Read] fills the 32 bytes, the state is made of 64
    lower-case hexadecimal digits. *)
Theorem X1_state_shape w n buf :
  randRead w n = Some buf ->
  List.length buf = 32%nat ->
  exists state,
    generateQwenState w n = (state, None) /\
    String.length state = 64%nat /\
    allChars isHexDigit state = true.
Proof.
  intros Hr Hl. unfold generateQwenState. rewrite Hr.
  eexists. split; [reflexivity|]. split.
  - rewrite hex_length, Hl. reflexivity.
  - apply hex_chars.
Qed.

Lemma X1_state_shape_witness :
  exists state,
    generateQwenState Stub.pending 0 = (state, None) /\
    String.length state = 64%nat /\
    allChars isHexDigit state = true.
Proof.
  apply (X1_state_shape Stub.pending 0%nat (repeat 7 32)); reflexivity.
Defined.

(** X2: two states that are equal come from the same random bytes: the
    state keeps all of the randomness. *)
Theorem X2_state_injective w1 n1 w2 n2 buf1 buf2 :
  randRead w1 n1 = Some buf1 ->
  randRead w2 n2 = Some buf2 ->
  Forall inRange buf1 -> Forall inRange buf2 ->
  fst (generateQwenState w1 n1) = fst (generateQwenState w2 n2) ->
  buf1 = buf2.
Proof.
  unfold generateQwenState. intros -> -> H1 H2 H. cbn [fst] in H.
  now apply hex_inj.
Qed.

Lemma repeat_inRange (b : Z) (n : nat) : inRange b -> Forall inRange (repeat b n).
Proof. intros H. induction n; cbn; constructor; assumption. Qed.

Lemma X2_state_injective_witness : repeat 7 32 = repeat 7 32.
Proof.
  apply (X2_state_injective Stub.pending 0%nat Stub.expired 0%nat).
  - reflexivity.
  - reflexivity.
  - apply repeat_inRange. unfold inRange. lia.
  - apply repeat_inRange. unfold inRange. lia.
  - reflexivity.
Defined.

Lemma b64url_length (bs : list Z) :
  String.length (base64URLEncode bs) = ((4 * List.length bs + 2) / 3)%nat.
Proof.
  unfold base64URLEncode.
  induction bs as [|b0|b0 b1|b0 b1 b2 bs IH] using list_ind3;
    try reflexivity.
  cbn [Base64.EncodeToString String.length List.length]. rewrite IH.
  replace (4 * S (S (S (List.length bs))) + 2)%nat
    with ((4 * List.length bs + 2) + 4 * 3)%nat by lia.
  rewrite Nat.div_add by lia. lia.
Qed.

Lemma urlChar_unreserved (k : nat) :
  (k < 64)%nat -> isUnreserved (urlChar k) = true.
Proof.
  intros H. do 64 (destruct k as [|k]; [reflexivity|]). lia.
Qed.

Lemma b64url_chars (bs : list Z) :
  allChars isUnreserved (base64URLEncode bs) = true.
Proof.
  unfold base64URLEncode.
  induction bs as [|b0|b0 b1|b0 b1 b2 bs IH] using list_ind3;
    cbn [Base64.EncodeToString allChars Base64.padding Base64.padChar
         Base64.WithPadding Base64.NoPadding];
    rewrite ?encodeChar_url;
    rewrite ?urlChar_unreserved by apply index63; try reflexivity.
  exact IH.
Qed.

Lemma b64url_inj (a b : list Z) :
  Forall inRange a -> Forall inRange b ->
  base64URLEncode a = base64URLEncode b -> a = b.
Proof.
  intros Ha Hb H.
  assert (E : Base64.EncodeToString Base64.StdEncoding a
              = Base64.EncodeToString Base64.StdEncoding b).
  { rewrite <- !addPadding_encode, !encode_std_url. now rewrite H. }
  pose proof (decode_encode_std a Ha) as Da.
  pose proof (decode_encode_std b Hb) as Db.
  rewrite E in Da. congruence.
Qed.

(** X3: when [rand.Read] fills the 32 bytes, the code verifier has 43
    characters, all of them unreserved characters: it has the form that
    RFC 7636 asks of a verifier, and nothing in it needs escaping in a URL
    or a form. *)
Theorem X3_verifier_shape w n bytes :
  randRead w n = Some bytes ->
  List.length bytes = 32%nat ->
  exists verifier,
    generateCodeVerifier w n = (verifier, None) /\
    String.length verifier = 43%nat /\
    allChars isUnreserved verifier = true.
Proof.
  intros Hr Hl. unfold generateCodeVerifier. rewrite Hr.
  eexists. split; [reflexivity|]. split.
  - rewrite b64url_length, Hl. reflexivity.
  - apply b64url_chars.
Qed.

Lemma X3_verifier_shape_witness :
  exists verifier,
    generateCodeVerifier Stub.pending 1 = (verifier, None) /\
    String.length verifier = 43%nat /\
    allChars isUnreserved verifier = true.
Proof.
  apply (X3_verifier_shape Stub.pending 1%nat (repeat 8 32)); reflexivity.
Defined.

(** X4: two verifiers that are equal come from the same random bytes. *)
Theorem X4_verifier_injective w1 n1 w2 n2 bytes1 bytes2 :
  randRead w1 n1 = Some bytes1 ->
  randRead w2 n2 = Some bytes2 ->
  Forall inRange bytes1 -> Forall inRange bytes2 ->
  fst (generateCodeVerifier w1 n1) = fst (generateCodeVerifier w2 n2) ->
  bytes1 = bytes2.
Proof.
  unfold generateCodeVerifier. intros -> -> H1 H2 H. cbn [fst] in H.
  now apply b64url_inj.
Qed.

Lemma X4_verifier_injective_witness : repeat 8 32 = repeat 8 32.
Proof.
  apply (X4_verifier_injective Stub.pending 1%nat Stub.expired 1%nat).
  - reflexivity.
  - reflexivity.
  - apply repeat_inRange. unfold inRange. lia.
  - apply repeat_inRange. unfold inRange. lia.
  - reflexivity.
Defined.

(** ** The exchange and the status check *)

(** X5: the exchange returns no credential when the token request has no
    reply, when the status of the reply is not 200 (whatever its body, the
    error carries it), or when the body does not parse. *)
Theorem X5_exchange_errors w n code codeVerifier state :
  (postToken w n (tokenForm code codeVerifier state) = NoReply ->
   exchangeQwenCodeForToken w n code codeVerifier state
   = (None, Some ErrTransport)) /\
  (forall sc body,
     postToken w n (tokenForm code codeVerifier state) = Response sc body ->
     sc <> StatusOK ->
     exchangeQwenCodeForToken w n code codeVerifier state
     = (None, Some (ErrTokenStatus body))) /\
  (forall body,
     postToken w n (tokenForm code codeVerifier state) = Response StatusOK body ->
     unmarshalTokenResponse body = None ->
     exchangeQwenCodeForToken w n code codeVerifier state
     = (None, Some ErrUnmarshal)).
Proof.
  pose proof (exchange_cases w n code codeVerifier state) as H. cbn zeta in H.
  repeat split.
  - intros Hp. now rewrite Hp in H.
  - intros sc body Hp Hs. rewrite Hp in H.
    apply Z.eqb_neq in Hs. now rewrite Hs in H.
  - intros body Hp Hu. rewrite Hp, Hu in H. exact H.
Qed.

Lemma X5_exchange_errors_witness :
  postToken (mkWorld (fun _ => None) (fun _ => NoReply) (fun _ _ => NoReply)
               (fun _ _ => Response 503 Stub.tokenBody)
               (fun _ => Stub.wallClock) (fun _ => 0%N) (fun _ => true))
            0 (tokenForm "c0de" "verifier" "state")
  = Response 503 Stub.tokenBody /\
  exchangeQwenCodeForToken
    (mkWorld (fun _ => None) (fun _ => NoReply) (fun _ _ => NoReply)
       (fun _ _ => Response 503 Stub.tokenBody)
       (fun _ => Stub.wallClock) (fun _ => 0%N) (fun _ => true))
    0 "c0de" "verifier" "state"
  = (None, Some (ErrTokenStatus Stub.tokenBody)).
Proof.
  split; [reflexivity|].
  apply (proj1 (proj2 (X5_exchange_errors _ 0%nat "c0de" "verifier" "state"))
               503 Stub.tokenBody); [reflexivity|discriminate].
Defined.

(** The shapes of the result of the exchange: a credential, an error, or
    nothing for an exchange that does not return. *)
Lemma exchange_shape w n code codeVerifier state :
  (exists cred,
     exchangeQwenCodeForToken w n code codeVerifier state = (Some cred, None) /\
     cred_AccessToken cred <> "" /\
     cred_Provider cred = "qwen" /\ cred_AuthMethod cred = "oauth" /\
     exists body t,
       postToken w n (tokenForm code codeVerifier state)
       = Response StatusOK body /\
       unmarshalTokenResponse body = Some t /\
       cred_AccessToken cred = AccessToken t /\
       cred_RefreshToken cred = RefreshToken t /\
       cred_AccountID cred = extractQwenAccountID (AccessToken t))
  \/ (exists e,
        exchangeQwenCodeForToken w n code codeVerifier state = (None, Some e))
  \/ exchangeQwenCodeForToken w n code codeVerifier state = (None, None).
Proof.
  unfold exchangeQwenCodeForToken. cbn zeta.
  destruct (postToken w n _) as [|sc body|] eqn:Hp;
    [right; left; eexists; reflexivity| |right; right; reflexivity].
  destruct (sc =? StatusOK) eqn:Hs; cbn [negb];
    [|right; left; eexists; reflexivity].
  apply Z.eqb_eq in Hs. subst sc.
  destruct (unmarshalTokenResponse body) as [t|] eqn:Hu;
    [|right; left; eexists; reflexivity].
  destruct (String.eqb (AccessToken t) "") eqn:Ha;
    [right; left; eexists; reflexivity|].
  left. eexists. split; [reflexivity|].
  cbn [cred_AccessToken cred_RefreshToken cred_Provider cred_AuthMethod
       cred_AccountID].
  apply String.eqb_neq in Ha.
  split; [exact Ha|]. split; [reflexivity|]. split; [reflexivity|].
  exists body, t.
  split; [reflexivity|]. split; [exact Hu|]. split; [reflexivity|].
  split; [reflexivity|].
  destruct (String.eqb (extractQwenAccountID (AccessToken t)) "") eqn:E;
    [apply String.eqb_eq in E; now rewrite E|reflexivity].
Qed.

(** A credential comes out of a check only through an exchange that the
    status AUTHORIZED has started. *)
Lemma check_credential w n qrCodeId state codeVerifier cred e :
  checkQwenScanStatus w n qrCodeId state codeVerifier = (Some cred, e) ->
  e = None /\
  exists sc body statusResp,
    getStatus w n (statusURL qrCodeId) = Response sc body /\
    unmarshalStatusResponse body = Some statusResp /\
    Status (st_Data statusResp) = "AUTHORIZED" /\
    st_AuthCode (st_Data statusResp) <> "" /\
    exchangeQwenCodeForToken w n (st_AuthCode (st_Data statusResp))
                             codeVerifier state = (Some cred, None).
Proof.
  unfold checkQwenScanStatus. cbn zeta.
  destruct (getStatus w n _) as [|sc body|] eqn:Hg;
    [discriminate| |discriminate].
  destruct (unmarshalStatusResponse body) as [sr|] eqn:Hu; [|discriminate].
  destruct (String.eqb (Status (st_Data sr)) "AUTHORIZED") eqn:Hs.
  - destruct (String.eqb (st_AuthCode (st_Data sr)) "") eqn:Hc; [discriminate|].
    intros H.
    destruct (exchange_shape w n (st_AuthCode (st_Data sr)) codeVerifier state)
      as [(c & Hx & _) | [(e' & Hx) | Hx]]; rewrite Hx in H;
      [|discriminate|discriminate].
    injection H as <- <-. split; [reflexivity|].
    exists sc, body, sr. apply String.eqb_eq in Hs. apply String.eqb_neq in Hc.
    repeat split; assumption.
  - destruct (_ || _); discriminate.
Qed.

(** A check that has a credential to return does return. *)
Lemma credential_returns w n qrCodeId state codeVerifier cred :
  checkQwenScanStatus w n qrCodeId state codeVerifier = (Some cred, None) ->
  checkReturns w n qrCodeId state codeVerifier = true.
Proof.
  intros H.
  destruct (check_credential _ _ _ _ _ _ _ H)
    as (_ & sc & body & sr & Hg & Hu & Hs & Hc & Hx).
  unfold checkReturns. rewrite Hg, Hu.
  rewrite (proj2 (String.eqb_eq _ _) Hs).
  apply String.eqb_neq in Hc. rewrite Hc.
  unfold exchangeReturns. unfold exchangeQwenCodeForToken in Hx.
  cbn zeta in Hx.
  destruct (postToken w n _); [reflexivity|reflexivity|discriminate].
Qed.

(** When no request is left without an answer, every check returns. *)
Lemma answered_returns w n qrCodeId state codeVerifier :
  (forall i url, getStatus w i url <> NoAnswer) ->
  (forall i form, postToken w i form <> NoAnswer) ->
  checkReturns w n qrCodeId state codeVerifier = true.
Proof.
  intros Hg Hp. unfold checkReturns, exchangeReturns.
  pose proof (Hg n (statusURL qrCodeId)) as Hs.
  destruct (getStatus w n _) as [|sc body|]; [reflexivity| |contradiction].
  destruct (unmarshalStatusResponse body) as [sr|]; [|reflexivity].
  destruct (String.eqb (Status (st_Data sr)) "AUTHORIZED"); [|reflexivity].
  destruct (String.eqb (st_AuthCode (st_Data sr)) ""); [reflexivity|].
  pose proof (Hp n (tokenForm (st_AuthCode (st_Data sr)) codeVerifier state))
    as Ht.
  destruct (postToken w n _); [reflexivity|reflexivity|contradiction].
Qed.

(** The loop hands out the credential of one of its checks. *)
Lemma pollLoop_credential w qrCodeId state codeVerifier fuel :
  forall st cred e st',
    pollLoop w qrCodeId state codeVerifier fuel st = Return (Some cred, e) st' ->
    exists n, checkQwenScanStatus w n qrCodeId state codeVerifier
              = (Some cred, None).
Proof.
  induction fuel as [|fuel IH]; intros st cred e st' H; [discriminate|].
  cbn [pollLoop] in H. rewrite iteration_cases in H.
  destruct (timesOut w st); [discriminate|].
  destruct (checkReturns _ _ _ _ _); [|discriminate].
  destruct (checkQwenScanStatus w _ qrCodeId state codeVerifier)
    as [[c|] [e'|]] eqn:Hc; try (apply IH in H; exact H).
  injection H as <- _ _. eexists. exact Hc.
Qed.

(** ** The login *)

Lemma getQwenQRCode_shape w state codeChallenge :
  (exists qrResp, getQwenQRCode w state codeChallenge = (Some qrResp, None))
  \/ getQwenQRCode w state codeChallenge = (None, Some ErrTransport)
  \/ (exists body,
        getQwenQRCode w state codeChallenge = (None, Some (ErrQRCodeParse body))).
Proof.
  unfold getQwenQRCode.
  destruct (getQRCode w _) as [|sc body|];
    [now right; left| |now right; left].
  destruct (unmarshalQRCodeResponse body).
  - left. eexists. reflexivity.
  - right. right. eexists. reflexivity.
Qed.

Lemma login_shape w fuel :
  LoginQwenQRCode w fuel <> NilDereference /\
  forall r,
    LoginQwenQRCode w fuel = Done r ->
    (exists cred, r = (Some cred, None)) \/ (exists e, r = (None, Some e)).
Proof.
  unfold LoginQwenQRCode.
  destruct (generateQwenState w 0) as [state [e0|]].
  { split; [discriminate|]. intros r H. injection H as <-.
    right. eexists. reflexivity. }
  destruct (generateCodeVerifier w 1) as [verifier [e1|]].
  { split; [discriminate|]. intros r H. injection H as <-.
    right. eexists. reflexivity. }
  destruct (getQwenQRCode_shape w state (generateCodeChallenge verifier))
    as [(q & ->) | [-> | (b & ->)]].
  - destruct (pollLoop w _ state verifier fuel loopStart) as [st|r0 st|st] eqn:Hl.
    + split; discriminate.
    + split; [discriminate|]. intros r H. injection H as <-.
      destruct (pollLoop_returns _ _ _ _ _ _ _ _ Hl) as [-> | (c & ->)].
      * right. eexists. reflexivity.
      * left. eexists. reflexivity.
    + split; discriminate.
  - split; [discriminate|]. intros r H. injection H as <-.
    right. eexists. reflexivity.
  - split; [discriminate|]. intros r H. injection H as <-.
    right. eexists. reflexivity.
Qed.

(** X6: [LoginQwenQRCode] returns a credential without an error or an
    error without a credential, and never both or neither; it does not
    dereference a nil response.  A caller may use the credential as soon as
    the error is nil. *)
Theorem X6_login_result_shape w fuel :
  LoginQwenQRCode w fuel <> NilDereference /\
  forall r,
    LoginQwenQRCode w fuel = Done r ->
    (exists cred, r = (Some cred, None)) \/ (exists e, r = (None, Some e)).
Proof.
  destruct (login_shape w fuel) as (Hn & Hs). split; [exact Hn|].
  intros r Hr. destruct (Hs r Hr) as [Hc|He]; [now left|now right].
Qed.

(** X7: the errors that [LoginQwenQRCode] returns are the failure of
    [rand.Read], the failure of the grant request and the timeout.  No error
    of a status check or of a token exchange is ever returned. *)
Theorem X7_login_errors w fuel cred e :
  LoginQwenQRCode w fuel = Done (cred, Some e) ->
  e = ErrWrap "生成 state 失败" ErrRand
  \/ e = ErrWrap "生成 code verifier 失败" ErrRand
  \/ e = ErrWrap "获取二维码失败" ErrTransport
  \/ (exists body, e = ErrWrap "获取二维码失败" (ErrQRCodeParse body))
  \/ e = ErrScanTimeout.
Proof.
  unfold LoginQwenQRCode, generateQwenState, generateCodeVerifier.
  destruct (randRead w 0) as [buf0|].
  2:{ intros H. injection H as _ <-. now left. }
  destruct (randRead w 1) as [buf1|].
  2:{ intros H. injection H as _ <-. now right; left. }
  destruct (getQwenQRCode_shape w (Hex.EncodeToString buf0)
              (generateCodeChallenge (base64URLEncode buf1)))
    as [(q & ->) | [-> | (b & ->)]].
  - destruct (pollLoop w _ _ _ fuel loopStart) as [st|r0 st|st] eqn:Hl;
      [discriminate| |discriminate].
    intros H. injection H as ->.
    destruct (pollLoop_returns _ _ _ _ _ _ _ _ Hl) as [Hr | (c & Hr)];
      [|discriminate].
    injection Hr as _ <-. now do 4 right.
  - intros H. injection H as _ <-. now right; right; left.
  - intros H. injection H as _ <-. right; right; right; left. now exists b.
Qed.

Lemma X7_login_errors_witness :
  ErrScanTimeout = ErrWrap "生成 state 失败" ErrRand
  \/ ErrScanTimeout = ErrWrap "生成 code verifier 失败" ErrRand
  \/ ErrScanTimeout = ErrWrap "获取二维码失败" ErrTransport
  \/ (exists body, ErrScanTimeout = ErrWrap "获取二维码失败" (ErrQRCodeParse body))
  \/ ErrScanTimeout = ErrScanTimeout.
Proof.
  apply (X7_login_errors Stub.expired 200 None). vm_compute. reflexivity.
Defined.

Lemma login_credential w fuel cred e :
  LoginQwenQRCode w fuel = Done (Some cred, e) ->
  e = None /\
  cred_AccessToken cred <> "" /\
  cred_Provider cred = "qwen" /\ cred_AuthMethod cred = "oauth" /\
  exists buf0 buf1 qrResp n sc statusBody statusResp tokenBody t,
    randRead w 0 = Some buf0 /\ randRead w 1 = Some buf1 /\
    getQwenQRCode w (Hex.EncodeToString buf0)
                  (generateCodeChallenge (base64URLEncode buf1))
    = (Some qrResp, None) /\
    getStatus w n (statusURL (QrCodeId (qr_Data qrResp)))
    = Response sc statusBody /\
    unmarshalStatusResponse statusBody = Some statusResp /\
    Status (st_Data statusResp) = "AUTHORIZED" /\
    st_AuthCode (st_Data statusResp) <> "" /\
    postToken w n (tokenForm (st_AuthCode (st_Data statusResp))
                             (base64URLEncode buf1) (Hex.EncodeToString buf0))
    = Response StatusOK tokenBody /\
    unmarshalTokenResponse tokenBody = Some t /\
    cred_AccessToken cred = AccessToken t /\
    cred_RefreshToken cred = RefreshToken t.
Proof.
  unfold LoginQwenQRCode, generateQwenState, generateCodeVerifier.
  destruct (randRead w 0) as [buf0|]; [|discriminate].
  destruct (randRead w 1) as [buf1|]; [|discriminate].
  destruct (getQwenQRCode_shape w (Hex.EncodeToString buf0)
              (generateCodeChallenge (base64URLEncode buf1)))
    as [(q & Hq) | [Hq | (b & Hq)]]; rewrite Hq; try discriminate.
  destruct (pollLoop w _ _ _ fuel loopStart) as [st|r0 st|st] eqn:Hl;
    [discriminate| |discriminate].
  intros H. injection H as ->.
  assert (He : e = None).
  { destruct (pollLoop_returns _ _ _ _ _ _ _ _ Hl) as [Hr | (c & Hr)];
      [discriminate|congruence]. }
  destruct (pollLoop_credential _ _ _ _ _ _ _ _ _ Hl) as (n & Hc).
  destruct (check_credential _ _ _ _ _ _ _ Hc)
    as (_ & sc & sb & sr & Hg & Hu & Hs & Hcode & Hx).
  destruct (exchange_shape w n (st_AuthCode (st_Data sr))
              (base64URLEncode buf1) (Hex.EncodeToString buf0))
    as [(c & Hx' & Ha & Hp & Hm & body & t & Hpost & Ht & Hat & Hrt & _)
       | [(e' & Hx') | Hx']];
    rewrite Hx in Hx'; [|discriminate|discriminate].
  injection Hx' as <-.
  split; [exact He|]. split; [exact Ha|]. split; [exact Hp|].
  split; [exact Hm|].
  exists buf0, buf1, q, n, sc, sb, sr, body, t.
  repeat (split; [first [reflexivity|assumption]|]). assumption.
Qed.

(** X8: a credential that [LoginQwenQRCode] returns has an access token
    that is not empty and is marked qwen and oauth; it is the answer, with
    status 200, to a token request that carries the state and the verifier
    made at the start of the login and the code of a status reply
    AUTHORIZED. *)
Theorem X8_login_credential w fuel cred e :
  LoginQwenQRCode w fuel = Done (Some cred, e) ->
  e = None /\
  cred_AccessToken cred <> "" /\
  cred_Provider cred = "qwen" /\ cred_AuthMethod cred = "oauth" /\
  exists buf0 buf1 qrResp n sc statusBody statusResp tokenBody t,
    randRead w 0 = Some buf0 /\ randRead w 1 = Some buf1 /\
    getQwenQRCode w (Hex.EncodeToString buf0)
                  (generateCodeChallenge (base64URLEncode buf1))
    = (Some qrResp, None) /\
    getStatus w n (statusURL (QrCodeId (qr_Data qrResp)))
    = Response sc statusBody /\
    unmarshalStatusResponse statusBody = Some statusResp /\
    Status (st_Data statusResp) = "AUTHORIZED" /\
    st_AuthCode (st_Data statusResp) <> "" /\
    postToken w n (tokenForm (st_AuthCode (st_Data statusResp))
                             (base64URLEncode buf1) (Hex.EncodeToString buf0))
    = Response StatusOK tokenBody /\
    unmarshalTokenResponse tokenBody = Some t /\
    cred_AccessToken cred = AccessToken t /\
    cred_RefreshToken cred = RefreshToken t.
Proof.
  intros H. destruct (login_credential w fuel cred e H) as (He & Ha & Hrest).
  split; [exact He|]. split; [exact Ha|exact Hrest].
Qed.

Lemma X8_login_credential_witness :
  cred_AccessToken (mkAuthCredential "sk-1" "r-1"
                      (Stub.wallClock + 3600 * GoTime.Second)
                      "qwen" "oauth" "") <> "".
Proof.
  assert (H : LoginQwenQRCode Stub.authorizing 4
              = Done (Some (mkAuthCredential "sk-1" "r-1"
                              (Stub.wallClock + 3600 * GoTime.Second)
                              "qwen" "oauth" ""), None))
    by (vm_compute; reflexivity).
  exact (proj1 (proj2 (X8_login_credential Stub.authorizing 4 _ None H))).
Defined.

(** X9: [LoginQwenOAuth] does not dereference a nil credential, and it
    returns no error only when the login has returned a credential, with an
    access token that is not empty, and [SaveCredential] has stored it for
    qwen without an error. *)
Theorem X9_oauth_saves_credential w fuel SaveCredential :
  LoginQwenOAuth w fuel SaveCredential <> OAuthNilDereference /\
  (LoginQwenOAuth w fuel SaveCredential = OAuthDone None ->
   exists cred,
     LoginQwenQRCode w fuel = Done (Some cred, None) /\
     SaveCredential "qwen" (Some cred) = None /\
     cred_AccessToken cred <> "").
Proof.
  unfold LoginQwenOAuth.
  destruct (login_shape w fuel) as (Hn & Hs).
  destruct (LoginQwenQRCode w fuel) as [|r| |] eqn:Hl.
  - split; discriminate.
  - destruct (Hs r eq_refl) as [(c & ->) | (e & ->)].
    + destruct (SaveCredential "qwen" (Some c)) eqn:Hsave.
      * split; discriminate.
      * split; [discriminate|]. intros _. exists c.
        repeat split; try assumption.
        apply (login_credential w fuel c None Hl).
    + split; discriminate.
  - contradiction.
  - split; discriminate.
Qed.

Lemma X9_oauth_saves_credential_witness :
  exists cred,
    LoginQwenQRCode Stub.authorizing 4 = Done (Some cred, None) /\
    (fun _ _ => @None Error) "qwen" (Some cred) = None /\
    cred_AccessToken cred <> "".
Proof.
  apply (proj2 (X9_oauth_saves_credential Stub.authorizing 4
                  (fun _ _ => None))).
  vm_compute. reflexivity.
Defined.

(** ** The pace and the end of the polling loop, whatever the server does *)

Section AnyServer.

Variable w : World.
Variables qrCodeId state codeVerifier : string.

Lemma afterPoll_iteration st st' :
  iteration w qrCodeId state codeVerifier st = Continue st' ->
  timesOut w st = false /\ st' = afterPoll w (await st).
Proof.
  rewrite iteration_cases.
  destruct (timesOut w st); [discriminate|].
  destruct (checkReturns _ _ _ _ _); [|discriminate].
  destruct (checkQwenScanStatus _ _ _ _ _) as [[c|] [e|]]; intros H;
    try discriminate; injection H as <-; now split.
Qed.

Lemma return_iteration st r st' :
  iteration w qrCodeId state codeVerifier st = Return r st' ->
  (timesOut w st = true /\ st' = await st)
  \/ (timesOut w st = false /\ st' = afterPoll w (await st)).
Proof.
  rewrite iteration_cases.
  destruct (timesOut w st); [intros H; injection H as _ <-; now left|].
  destruct (checkReturns _ _ _ _ _); [|discriminate].
  destruct (checkQwenScanStatus _ _ _ _ _) as [[c|] [e|]]; intros H;
    try discriminate; injection H as _ <-; now right.
Qed.

(** A check that does not return has been begun at a tick, like one that
    returns. *)
Lemma stuck_iteration st st' :
  iteration w qrCodeId state codeVerifier st = Stuck st' ->
  timesOut w st = false /\ st' = startPoll (await st)
  /\ polls st' = polls (afterPoll w (await st)).
Proof.
  rewrite iteration_cases.
  destruct (timesOut w st); [discriminate|].
  destruct (checkReturns _ _ _ _ _).
  { destruct (checkQwenScanStatus _ _ _ _ _) as [[c|] [e|]]; discriminate. }
  intros H. injection H as <-. repeat split.
Qed.

Lemma strict_after_await st :
  lastCheckPassed st -> tickReady (await st) = true ->
  match polls st with
  | [] => True
  | t :: _ => t < now (await st)
  end.
Proof.
  unfold lastCheckPassed. destruct (polls st) as [|t r]; [trivial|].
  intros (Hle & Heq). unfold await.
  destruct (tickReady st) eqn:Ht; cbn [orb].
  - intros _. destruct (Z.eq_dec t (now st)) as [E|E]; [|lia].
    specialize (Heq E). discriminate.
  - destruct (pollDeadline <=? now st); [congruence|].
    pose proof (nextTick_after (now st)) as Hn.
    destruct (nextTick (now st) <=? pollDeadline); cbn [now tickReady];
      [intros _; lia|discriminate].
Qed.

Lemma lastCheckPassed_afterPoll st1 : lastCheckPassed (afterPoll w st1).
Proof.
  unfold lastCheckPassed, afterPoll. cbn [polls now tickReady].
  pose proof (N2Z.is_nonneg (pollDuration w (List.length (polls st1)))) as Hd.
  split; [lia|]. intros E. apply Z.ltb_ge. rewrite <- E. lia.
Qed.

Lemma lastCheckPassed_await st : lastCheckPassed st -> lastCheckPassed (await st).
Proof.
  unfold lastCheckPassed. rewrite polls_await.
  destruct (polls st) as [|t r]; [trivial|]. intros (Hle & Heq). unfold await.
  destruct (tickReady st || (pollDeadline <=? now st)) eqn:E; [now split|].
  apply orb_false_iff in E. destruct E as [_ Ed]. apply Z.leb_gt in Ed.
  pose proof (nextTick_after (now st)) as Hn.
  destruct (nextTick (now st) <=? pollDeadline); cbn [now tickReady];
    split; lia.
Qed.

Lemma paced_afterPoll st1 :
  onTime st1 -> tickReady st1 = true -> paced (polls st1) ->
  match polls st1 with [] => True | t :: _ => t < now st1 end ->
  paced (polls (afterPoll w st1)).
Proof.
  intros (_ & Ho & _) Ht Hp Hs. unfold afterPoll. cbn [polls].
  cbn [paced]. split; [|split; assumption].
  specialize (Ho Ht). cbn [List.length]. rewrite Nat2Z.inj_succ. exact Ho.
Qed.

Lemma paced_pollLoop fuel : forall st,
  onTime st -> paced (polls st) -> lastCheckPassed st ->
  paced (polls (stateOf (pollLoop w qrCodeId state codeVerifier fuel st))).
Proof.
  induction fuel as [|fuel IH]; intros st Ho Hp Hl; [exact Hp|].
  cbn [pollLoop].
  destruct (iteration w qrCodeId state codeVerifier st) as [st1|r st1|st1] eqn:E.
  - destruct (afterPoll_iteration _ _ E) as (Hto & ->).
    pose proof (tick_taken w st Hto) as Ht.
    pose proof (onTime_await st Ho) as Ho'.
    apply IH.
    + now apply onTime_afterPoll.
    + apply paced_afterPoll; try assumption; rewrite polls_await;
        [exact Hp|now apply strict_after_await].
    + apply lastCheckPassed_afterPoll.
  - cbn [stateOf].
    destruct (return_iteration _ _ _ E) as [(_ & ->) | (Hto & ->)].
    + now rewrite polls_await.
    + pose proof (tick_taken w st Hto) as Ht.
      pose proof (onTime_await st Ho) as Ho'.
      apply paced_afterPoll; try assumption; rewrite polls_await;
        [exact Hp|now apply strict_after_await].
  - cbn [stateOf].
    destruct (stuck_iteration _ _ E) as (Hto & _ & ->).
    pose proof (tick_taken w st Hto) as Ht.
    pose proof (onTime_await st Ho) as Ho'.
    apply paced_afterPoll; try assumption; rewrite polls_await;
      [exact Hp|now apply strict_after_await].
Qed.

(** Once 200 checks are made the deadline has passed, and the loop returns
    at the latest at the first [select] that takes the deadline, when every
    check returns. *)
Lemma returns_by (m : nat) : forall st,
  (forall n, checkReturns w n qrCodeId state codeVerifier = true) ->
  onTime st ->
  (200 <= List.length (polls st) + m)%nat ->
  selectDeadline w (List.length (polls st) + m) = true ->
  exists fuel r st',
    (fuel <= S m)%nat /\
    pollLoop w qrCodeId state codeVerifier fuel st = Return r st'.
Proof.
  induction m as [|m IH]; intros st Hret Hi Hn Hs.
  - rewrite Nat.add_0_r in Hn, Hs.
    exists 1%nat, (None, Some ErrScanTimeout), (await st). split; [lia|].
    cbn [pollLoop]. rewrite iteration_cases.
    assert (Hd : pollDeadline <= now st).
    { destruct Hi as (Hi & _). rewrite pollDeadline_value.
      rewrite pollInterval_value in *. lia. }
    assert (Ha : await st = st).
    { unfold await. apply Z.leb_le in Hd. rewrite Hd.
      now rewrite orb_true_r. }
    unfold timesOut. cbn zeta. rewrite Ha, Hs, orb_true_r.
    apply Z.leb_le in Hd. now rewrite Hd.
  - destruct (iteration w qrCodeId state codeVerifier st) as [st1|r st1|st1] eqn:E.
    + destruct (onTime_iteration w qrCodeId state codeVerifier _ _ Hi E)
        as (Hi' & Hl).
      destruct (IH st1 Hret Hi') as (fuel & r & st' & Hf & Hr).
      * rewrite Hl. lia.
      * rewrite Hl. now rewrite Nat.add_succ_l, <- Nat.add_succ_r.
      * exists (S fuel), r, st'. split; [lia|].
        cbn [pollLoop]. now rewrite E.
    + exists 1%nat, r, st1. split; [lia|]. cbn [pollLoop]. now rewrite E.
    + exfalso. rewrite iteration_cases in E.
      destruct (timesOut w st); [discriminate|].
      rewrite Hret in E.
      destruct (checkQwenScanStatus _ _ _ _ _) as [[c|] [e|]]; discriminate.
Qed.

(** *** Checks that are shorter than the interval *)

Hypothesis short : forall n, Z.of_N (pollDuration w n) < pollInterval.

Lemma atTick_pollLoop fuel : forall st,
  inStep st -> Forall atTick (polls st) ->
  Forall atTick (polls (stateOf (pollLoop w qrCodeId state codeVerifier fuel st)))
  /\ (List.length
        (polls (stateOf (pollLoop w qrCodeId state codeVerifier fuel st)))
      <= 200)%nat.
Proof.
  induction fuel as [|fuel IH]; intros st Hi Hf.
  { split; [exact Hf|apply Hi]. }
  cbn [pollLoop].
  assert (Hstep : timesOut w st = false ->
                  inStep (afterPoll w (await st))
                  /\ Forall atTick (polls (afterPoll w (await st)))).
  { intros Hto. pose proof (tick_taken w st Hto) as Ht.
    destruct (inStep_await w short st Hi) as [(Hx & _) | (Ha & Hl)]; [congruence|].
    split.
    - rewrite Ha. now apply (inStep_afterPoll w short).
    - rewrite Ha. unfold afterPoll. cbn [polls now]. constructor; [|exact Hf].
      split; [exact Hl|]. eexists. reflexivity. }
  destruct (iteration w qrCodeId state codeVerifier st) as [st1|r st1|st1] eqn:E.
  - destruct (afterPoll_iteration _ _ E) as (Hto & ->).
    destruct (Hstep Hto) as (Hi' & Hf'). now apply IH.
  - cbn [stateOf].
    destruct (return_iteration _ _ _ E) as [(_ & ->) | (Hto & ->)].
    + rewrite polls_await. split; [exact Hf|apply Hi].
    + destruct (Hstep Hto) as (Hi' & Hf'). split; [exact Hf'|apply Hi'].
  - cbn [stateOf].
    destruct (stuck_iteration _ _ E) as (Hto & _ & ->).
    destruct (Hstep Hto) as (Hi' & Hf'). split; [exact Hf'|apply Hi'].
Qed.

(** Before the 199th check the next tick comes before the deadline. *)
Lemma inStep_next_tick st :
  inStep st -> (List.length (polls st) < 199)%nat ->
  await st
  = mkLoopState (pollInterval * (Z.of_nat (List.length (polls st)) + 1))
                true (polls st)
  /\ timesOut w st = false.
Proof.
  intros Hi Hn.
  assert (Ha : await st
               = mkLoopState
                   (pollInterval * (Z.of_nat (List.length (polls st)) + 1))
                   true (polls st)).
  { destruct Hi as (Ht & Hb & _). unfold await. rewrite Ht. cbn [orb].
    rewrite (nextTick_exact _ _ Hb).
    assert (H1 : (pollDeadline <=? now st) = false).
    { apply Z.leb_gt. rewrite pollDeadline_value.
      rewrite pollInterval_value in *. lia. }
    assert (H2 : (pollInterval * (Z.of_nat (List.length (polls st)) + 1)
                  <=? pollDeadline) = true).
    { apply Z.leb_le. rewrite pollDeadline_value, pollInterval_value. lia. }
    now rewrite H1, H2. }
  split; [exact Ha|].
  unfold timesOut. cbn zeta. rewrite Ha. cbn [now tickReady polls].
  assert (Hlt : (pollDeadline
                 <=? pollInterval * (Z.of_nat (List.length (polls st)) + 1))
                = false).
  { apply Z.leb_gt. rewrite pollDeadline_value, pollInterval_value. lia. }
  now rewrite Hlt.
Qed.

(** The first check that returns a credential ends the loop, when it is
    made before the deadline. *)
Lemma first_credential (cred : AuthCredential) (n : nat) (m : nat) : forall st,
  inStep st ->
  (List.length (polls st) + m = n)%nat ->
  (n < 199)%nat ->
  (forall i, (i < n)%nat ->
     checkReturns w i qrCodeId state codeVerifier = true) ->
  (forall i c, (i < n)%nat ->
     checkQwenScanStatus w i qrCodeId state codeVerifier <> (Some c, None)) ->
  checkQwenScanStatus w n qrCodeId state codeVerifier = (Some cred, None) ->
  exists st',
    pollLoop w qrCodeId state codeVerifier (S m) st
    = Return (Some cred, None) st' /\
    now st' = pollInterval * (Z.of_nat n + 1) + Z.of_N (pollDuration w n) /\
    List.length (polls st') = S n.
Proof.
  induction m as [|m IH]; intros st Hi Hl Hn Hret Hnone Hcred.
  - rewrite Nat.add_0_r in Hl.
    destruct (inStep_next_tick st Hi ltac:(lia)) as (Ha & Hto).
    cbn [pollLoop]. rewrite iteration_cases, Hto, polls_await, Hl, Hcred.
    rewrite (credential_returns _ _ _ _ _ _ Hcred).
    eexists. split; [reflexivity|]. rewrite Ha. unfold afterPoll.
    cbn [now polls List.length]. rewrite Hl. split; reflexivity.
  - destruct (inStep_next_tick st Hi ltac:(lia)) as (Ha & Hto).
    assert (Hlen : (List.length (polls st) < n)%nat) by lia.
    assert (Hc : iteration w qrCodeId state codeVerifier st
                 = Continue (afterPoll w (await st))).
    { rewrite iteration_cases, Hto, polls_await.
      rewrite (Hret _ Hlen).
      pose proof (Hnone (List.length (polls st))) as Hx.
      destruct (checkQwenScanStatus w (List.length (polls st)) qrCodeId
                                    state codeVerifier)
        as [[c|] [e|]]; try reflexivity.
      exfalso. now apply (Hx c Hlen). }
    assert (Hi' : inStep (afterPoll w (await st))).
    { rewrite Ha. apply (inStep_afterPoll w short); [exact Hi|].
      rewrite pollDeadline_value, pollInterval_value. lia. }
    destruct (IH (afterPoll w (await st)) Hi') as (st' & Hr & Hrest);
      try assumption.
    { unfold afterPoll. cbn [polls List.length]. rewrite polls_await. lia. }
    exists st'. split; [|exact Hrest].
    change (pollLoop w qrCodeId state codeVerifier (S (S m)) st)
      with (match iteration w qrCodeId state codeVerifier st with
            | Continue st1 => pollLoop w qrCodeId state codeVerifier (S m) st1
            | Return r st1 => Return r st1
            | Stuck st1 => Stuck st1
            end).
    now rewrite Hc.
Qed.

(** The first check that does not return holds the loop for ever, when it
    is begun before the deadline. *)
Lemma first_unanswered (n : nat) (m : nat) : forall st,
  inStep st ->
  (List.length (polls st) + m = n)%nat ->
  (n < 199)%nat ->
  (forall i, (i < n)%nat ->
     checkReturns w i qrCodeId state codeVerifier = true) ->
  (forall i c, (i < n)%nat ->
     checkQwenScanStatus w i qrCodeId state codeVerifier <> (Some c, None)) ->
  checkReturns w n qrCodeId state codeVerifier = false ->
  forall k, exists st',
    pollLoop w qrCodeId state codeVerifier (S m + k) st = Stuck st' /\
    now st' = pollInterval * (Z.of_nat n + 1) /\
    List.length (polls st') = S n.
Proof.
  induction m as [|m IH]; intros st Hi Hl Hn Hret Hnone Hstuck k.
  - rewrite Nat.add_0_r in Hl.
    destruct (inStep_next_tick st Hi ltac:(lia)) as (Ha & Hto).
    cbn [Nat.add pollLoop].
    rewrite iteration_cases, Hto, polls_await, Hl, Hstuck.
    eexists. split; [reflexivity|]. rewrite Ha. unfold startPoll.
    cbn [now polls List.length]. rewrite Hl. split; reflexivity.
  - destruct (inStep_next_tick st Hi ltac:(lia)) as (Ha & Hto).
    assert (Hlen : (List.length (polls st) < n)%nat) by lia.
    assert (Hc : iteration w qrCodeId state codeVerifier st
                 = Continue (afterPoll w (await st))).
    { rewrite iteration_cases, Hto, polls_await.
      rewrite (Hret _ Hlen).
      pose proof (Hnone (List.length (polls st))) as Hx.
      destruct (checkQwenScanStatus w (List.length (polls st)) qrCodeId
                                    state codeVerifier)
        as [[c|] [e|]]; try reflexivity.
      exfalso. now apply (Hx c Hlen). }
    assert (Hi' : inStep (afterPoll w (await st))).
    { rewrite Ha. apply (inStep_afterPoll w short); [exact Hi|].
      rewrite pollDeadline_value, pollInterval_value. lia. }
    destruct (IH (afterPoll w (await st)) Hi') with (k := k)
      as (st' & Hr & Hrest); try assumption.
    { unfold afterPoll. cbn [polls List.length]. rewrite polls_await. lia. }
    exists st'. split; [|exact Hrest].
    change (pollLoop w qrCodeId state codeVerifier (S (S m) + k) st)
      with (match iteration w qrCodeId state codeVerifier st with
            | Continue st1 =>
                pollLoop w qrCodeId state codeVerifier (S m + k) st1
            | Return r st1 => Return r st1
            | Stuck st1 => Stuck st1
            end).
    now rewrite Hc.
Qed.

End AnyServer.

(** X10: whatever the server answers and however long its answers take,
    the k-th status check is not made before k intervals of 3 seconds have
    passed, and every check is made later than the one before. *)
Theorem X10_checks_paced w qrCodeId state codeVerifier fuel :
  paced (polls (stateOf (pollLoop w qrCodeId state codeVerifier fuel loopStart))).
Proof.
  apply paced_pollLoop.
  - apply onTime_start.
  - exact I.
  - exact I.
Qed.

(** X11: when no request of a status check is left without an answer, the
    login returns: when the [select] of turn k, with k at least 200, would
    take the deadline, the login has returned after k + 1 turns at most,
    whatever the answers are. *)
Theorem X11_login_returns w k :
  (forall n url, getStatus w n url <> NoAnswer) ->
  (forall n form, postToken w n form <> NoAnswer) ->
  (200 <= k)%nat ->
  selectDeadline w k = true ->
  exists fuel r, (fuel <= S k)%nat /\ LoginQwenQRCode w fuel = Done r.
Proof.
  intros Hg Hp Hk Hs.
  destruct (login_shape w 0) as (Hnil & _). revert Hnil.
  unfold LoginQwenQRCode.
  destruct (generateQwenState w 0) as [state [e0|]];
    [intros _; exists 0%nat; eexists; split; [lia|reflexivity]|].
  destruct (generateCodeVerifier w 1) as [verifier [e1|]];
    [intros _; exists 0%nat; eexists; split; [lia|reflexivity]|].
  destruct (getQwenQRCode w state (generateCodeChallenge verifier))
    as [[q|] [e|]]; intros Hnil;
    try (exists 0%nat; eexists; split; [lia|reflexivity]);
    [|contradiction].
  destruct (returns_by w (QrCodeId (qr_Data q)) state verifier k loopStart)
    as (fuel & r & st' & Hf & Hr);
    [intros n; now apply answered_returns|apply onTime_start|exact Hk
    |exact Hs|].
  exists fuel, r. split; [exact Hf|]. now rewrite Hr.
Qed.

Lemma X11_login_returns_witness :
  exists fuel r,
    (fuel <= 201)%nat /\ LoginQwenQRCode Stub.expired fuel = Done r.
Proof.
  apply (X11_login_returns Stub.expired 200);
    [discriminate|discriminate|lia|reflexivity].
Defined.

(** X12: when every status check takes less than 3 seconds, a login makes
    200 status checks at most, each of them at a tick of the ticker that is
    not after the deadline, whatever the server answers. *)
Theorem X12_at_most_200_checks w qrCodeId state codeVerifier fuel :
  (forall n, Z.of_N (pollDuration w n) < pollInterval) ->
  Forall atTick
    (polls (stateOf (pollLoop w qrCodeId state codeVerifier fuel loopStart)))
  /\ (List.length
        (polls (stateOf (pollLoop w qrCodeId state codeVerifier fuel loopStart)))
      <= 200)%nat.
Proof.
  intros Hshort. apply atTick_pollLoop; [exact Hshort| |constructor].
  unfold inStep, loopStart. cbn [tickReady now polls List.length].
  rewrite pollInterval_value. repeat split; lia.
Qed.

Lemma X12_at_most_200_checks_witness :
  (List.length
     (polls (stateOf (pollLoop Stub.expired "q1" "state" "verifier" 1000
                               loopStart)))
   <= 200)%nat.
Proof.
  apply (X12_at_most_200_checks Stub.expired "q1" "state" "verifier" 1000).
  intros n. vm_compute. reflexivity.
Defined.

(** X13: when every status check takes less than 3 seconds and check
    number n, with n below 199, is the first that returns a credential, the
    checks before it returning without one, the loop returns this
    credential at its turn n + 1, at the end of the check made at the
    tick n + 1. *)
Theorem X13_first_credential_returned w qrCodeId state codeVerifier n cred :
  (forall i, Z.of_N (pollDuration w i) < pollInterval) ->
  (n < 199)%nat ->
  (forall i, (i < n)%nat ->
     checkReturns w i qrCodeId state codeVerifier = true) ->
  (forall i c, (i < n)%nat ->
     checkQwenScanStatus w i qrCodeId state codeVerifier <> (Some c, None)) ->
  checkQwenScanStatus w n qrCodeId state codeVerifier = (Some cred, None) ->
  exists st,
    pollLoop w qrCodeId state codeVerifier (S n) loopStart
    = Return (Some cred, None) st /\
    now st = pollInterval * (Z.of_nat n + 1) + Z.of_N (pollDuration w n) /\
    List.length (polls st) = S n.
Proof.
  intros Hshort Hn Hret Hnone Hcred.
  apply (first_credential w qrCodeId state codeVerifier Hshort cred n n);
    try assumption; [|reflexivity].
  unfold inStep, loopStart. cbn [tickReady now polls List.length].
  rewrite pollInterval_value. repeat split; lia.
Qed.

Lemma X13_first_credential_returned_witness :
  exists st,
    pollLoop Stub.authorizing "q1" "state" "verifier" 4 loopStart
    = Return (Some (mkAuthCredential "sk-1" "r-1"
                      (Stub.wallClock + 3600 * GoTime.Second)
                      "qwen" "oauth" ""), None) st /\
    now st = pollInterval * (Z.of_nat 3 + 1)
             + Z.of_N (pollDuration Stub.authorizing 3) /\
    List.length (polls st) = 4%nat.
Proof.
  apply (X13_first_credential_returned Stub.authorizing "q1" "state"
           "verifier" 3).
  - intros i. vm_compute. reflexivity.
  - lia.
  - intros i Hi. apply answered_returns; discriminate.
  - intros i c Hi.
    destruct i as [|[|[|i]]]; [vm_compute; discriminate..|lia].
  - vm_compute. reflexivity.
Defined.

(** X22: when every status check takes less than 3 seconds and check
    number n, with n below 199, is the first that does not return, its
    request or the request of its exchange being left without an answer,
    the loop is held in this check, begun at the tick n + 1, for ever: it
    returns neither a credential nor the timeout, however many turns it is
    given. *)
Theorem X22_unanswered_check_hangs w qrCodeId state codeVerifier n :
  (forall i, Z.of_N (pollDuration w i) < pollInterval) ->
  (n < 199)%nat ->
  (forall i, (i < n)%nat ->
     checkReturns w i qrCodeId state codeVerifier = true) ->
  (forall i c, (i < n)%nat ->
     checkQwenScanStatus w i qrCodeId state codeVerifier <> (Some c, None)) ->
  checkReturns w n qrCodeId state codeVerifier = false ->
  forall fuel, (n < fuel)%nat ->
  exists st,
    pollLoop w qrCodeId state codeVerifier fuel loopStart = Stuck st /\
    now st = pollInterval * (Z.of_nat n + 1) /\
    List.length (polls st) = S n.
Proof.
  intros Hshort Hn Hret Hnone Hstuck fuel Hf.
  replace fuel with (S n + (fuel - S n))%nat by lia.
  apply (first_unanswered w qrCodeId state codeVerifier Hshort n n);
    try assumption; [|reflexivity].
  unfold inStep, loopStart. cbn [tickReady now polls List.length].
  rewrite pollInterval_value. repeat split; lia.
Qed.

Lemma X22_unanswered_check_hangs_witness :
  exists st,
    pollLoop (Stub.silentAfter 2) "q1" "state" "verifier" 1000 loopStart
    = Stuck st /\
    now st = pollInterval * (Z.of_nat 2 + 1) /\
    List.length (polls st) = 3%nat.
Proof.
  apply (X22_unanswered_check_hangs (Stub.silentAfter 2) "q1" "state"
           "verifier" 2).
  - intros i. vm_compute. reflexivity.
  - lia.
  - intros i Hi. destruct i as [|[|i]]; [reflexivity|reflexivity|lia].
  - intros i c Hi.
    destruct i as [|[|i]]; [vm_compute; discriminate..|lia].
  - reflexivity.
  - lia.
Defined.

(** The login with it: the server answers PENDING twice and leaves the
    third status request without an answer. *)
Lemma login_hangs :
  LoginQwenQRCode (Stub.silentAfter 2) 2 = Polling /\
  LoginQwenQRCode (Stub.silentAfter 2) 3 = Hangs /\
  LoginQwenQRCode (Stub.silentAfter 2) 1000 = Hangs.
Proof. repeat split; vm_compute; reflexivity. Qed.

(** ** Model names *)

Lemma prefix_drop (p : string) : forall s,
  String.prefix p s = true -> s = p ++ GoStrings.drop (String.length p) s.
Proof.
  induction p as [|a p IH]; intros s H; [reflexivity|].
  destruct s as [|b s]; [discriminate|].
  cbn [String.prefix] in H. destruct (ascii_dec a b) as [->|]; [|discriminate].
  cbn [append String.length GoStrings.drop]. f_equal. now apply IH.
Qed.

Lemma prefix_app (p s : string) : String.prefix p (p ++ s) = true.
Proof.
  induction p as [|a p IH]; [now destruct s|].
  cbn [append String.prefix]. destruct (ascii_dec a a); [exact IH|congruence].
Qed.

(** X14: [ParseQwenModel] takes the prefix qwen/ or dashscope/ off a model
    name, and one prefix only: its argument is its result after nothing or
    after one of the two prefixes. *)
Theorem X14_model_prefix model :
  ParseQwenModel ("qwen/" ++ model) = model /\
  ParseQwenModel ("dashscope/" ++ model) = model /\
  exists p,
    In p [""; "qwen/"; "dashscope/"] /\
    model = p ++ ParseQwenModel model.
Proof.
  unfold ParseQwenModel, GoStrings.TrimPrefix, GoStrings.HasPrefix.
  split; [now rewrite !prefix_app|].
  split.
  { assert (E : String.prefix "qwen/" ("dashscope/" ++ model) = false).
    { cbn [append String.prefix].
      destruct (ascii_dec "q" "d"); [discriminate|reflexivity]. }
    now rewrite E, !prefix_app. }
  destruct (String.prefix "qwen/" model) eqn:H1.
  - exists "qwen/". split; [cbn; tauto|]. now apply prefix_drop.
  - destruct (String.prefix "dashscope/" model) eqn:H2.
    + exists "dashscope/". split; [cbn; tauto|]. now apply prefix_drop.
    + exists "". split; [cbn; tauto|reflexivity].
Qed.

(** ** Escaping *)

Lemma concatMap_app (f : ascii -> string) (s t : string) :
  concatMap f (s ++ t) = concatMap f s ++ concatMap f t.
Proof.
  induction s as [|c s IH]; [reflexivity|].
  cbn [append concatMap]. now rewrite IH, append_assoc.
Qed.

Lemma concatMap_ext (f g : ascii -> string) (s : string) :
  (forall c, f c = g c) -> concatMap f s = concatMap g s.
Proof.
  intros H. induction s as [|c s IH]; [reflexivity|].
  cbn [concatMap]. now rewrite H, IH.
Qed.

Lemma concatMap_concatMap (f g : ascii -> string) (s : string) :
  concatMap f (concatMap g s) = concatMap (fun c => concatMap f (g c)) s.
Proof.
  induction s as [|c s IH]; [reflexivity|].
  cbn [concatMap]. now rewrite concatMap_app, IH.
Qed.

(** Replacing a string of one character. *)
Lemma ReplaceAll_char (c : ascii) (new s : string) :
  GoStrings.ReplaceAll s (String c EmptyString) new
  = concatMap (fun d => if Ascii.eqb d c then new else String d EmptyString) s.
Proof.
  unfold GoStrings.ReplaceAll. induction s as [|d s IH]; [reflexivity|].
  cbn [GoStrings.replaceFrom String.prefix String.length Nat.sub concatMap].
  destruct (ascii_dec c d) as [->|Hn].
  - rewrite Ascii.eqb_refl. destruct s; now rewrite IH.
  - assert (E : Ascii.eqb d c = false) by (apply Ascii.eqb_neq; congruence).
    rewrite E. now rewrite IH.
Qed.

Lemma escapeHTML_chars (text : string) :
  escapeHTML text = concatMap escapeChar text.
Proof.
  unfold escapeHTML. rewrite !ReplaceAll_char, !concatMap_concatMap.
  apply concatMap_ext. intros c. unfold escapeChar.
  destruct (Ascii.eqb c "&") eqn:E1; [reflexivity|].
  cbn [concatMap append]. 
  destruct (Ascii.eqb c "<") eqn:E2; [reflexivity|].
  cbn [concatMap append].
  destruct (Ascii.eqb c ">") eqn:E3; reflexivity.
Qed.

Lemma escapeChar_safe (c : ascii) :
  contains "<" (escapeChar c) = false /\ contains ">" (escapeChar c) = false.
Proof.
  unfold escapeChar.
  destruct (Ascii.eqb c "&"); [split; reflexivity|].
  destruct (Ascii.eqb c "<") eqn:E2; [split; reflexivity|].
  destruct (Ascii.eqb c ">") eqn:E3; [split; reflexivity|].
  cbn [contains]. now rewrite E2, E3.
Qed.

(** X15: the text that [escapeHTML] returns has no character < and no
    character >: no tag of the text is left for Telegram to read. *)
Theorem X15_escaped_has_no_tag text :
  contains "<" (escapeHTML text) = false /\
  contains ">" (escapeHTML text) = false.
Proof.
  rewrite escapeHTML_chars. induction text as [|c text (IH1 & IH2)].
  - split; reflexivity.
  - cbn [concatMap]. rewrite !contains_app, IH1, IH2.
    destruct (escapeChar_safe c) as (-> & ->). split; reflexivity.
Qed.

(** X16: [escapeHTML] works character by character: the escape of two texts
    one after the other is the escape of the first followed by the escape of
    the second. *)
Theorem X16_escape_concat a b :
  escapeHTML (a ++ b) = escapeHTML a ++ escapeHTML b.
Proof. rewrite !escapeHTML_chars. apply concatMap_app. Qed.

Lemma escapeChar_head (c : ascii) :
  exists r, escapeChar c
            = String (if Ascii.eqb c "<" || Ascii.eqb c ">" then "&"%char else c) r
         /\ (Ascii.eqb c "&" || Ascii.eqb c "<" || Ascii.eqb c ">" = false ->
             r = EmptyString).
Proof.
  unfold escapeChar.
  destruct (Ascii.eqb c "&") eqn:E1.
  { apply Ascii.eqb_eq in E1. subst c. eexists. split; [reflexivity|].
    discriminate. }
  destruct (Ascii.eqb c "<") eqn:E2; [eexists; split; [reflexivity|discriminate]|].
  destruct (Ascii.eqb c ">") eqn:E3; [eexists; split; [reflexivity|discriminate]|].
  eexists. split; reflexivity.
Qed.

(** X17: no two texts have the same escape: nothing of a text is lost. *)
Theorem X17_escape_injective a : forall b,
  escapeHTML a = escapeHTML b -> a = b.
Proof.
  intros b. rewrite !escapeHTML_chars. revert b.
  induction a as [|c a IH]; intros [|d b] H.
  - reflexivity.
  - exfalso. cbn [concatMap] in H. unfold escapeChar in H.
    destruct (Ascii.eqb d "&"); [discriminate|].
    destruct (Ascii.eqb d "<"); [discriminate|].
    destruct (Ascii.eqb d ">"); discriminate.
  - exfalso. cbn [concatMap] in H. unfold escapeChar in H.
    destruct (Ascii.eqb c "&"); [discriminate|].
    destruct (Ascii.eqb c "<"); [discriminate|].
    destruct (Ascii.eqb c ">"); discriminate.
  - cbn [concatMap] in H.
    assert (Hcd : c = d /\ concatMap escapeChar a = concatMap escapeChar b).
    { unfold escapeChar in H.
      destruct (Ascii.eqb c "&") eqn:C1; destruct (Ascii.eqb d "&") eqn:D1;
      destruct (Ascii.eqb c "<") eqn:C2; destruct (Ascii.eqb d "<") eqn:D2;
      destruct (Ascii.eqb c ">") eqn:C3; destruct (Ascii.eqb d ">") eqn:D3;
      repeat match goal with
             | E : Ascii.eqb _ _ = true |- _ => apply Ascii.eqb_eq in E; subst
             end;
      try discriminate;
      cbn [append] in H;
      try (injection H as ->; split; [reflexivity|assumption]);
      try (injection H as H; split; [reflexivity|assumption]);
      try (injection H; intros; subst; discriminate).
      all: try (split; [reflexivity|]; injection H; auto). }
    destruct Hcd as (-> & Hr). f_equal. now apply IH.
Qed.

Lemma X17_escape_injective_witness :
  escapeHTML "a<b" = escapeHTML "a<b" /\ "a<b" = "a<b".
Proof.
  split; [reflexivity|].
  apply (X17_escape_injective "a<b" "a<b"). reflexivity.
Defined.

(** ** Inline code *)

Lemma append_string_cons (c : ascii) (s : string) :
  String c EmptyString ++ s = String c s.
Proof. reflexivity. Qed.

Lemma segments_plain (p : string) : forall s,
  contains backtick p = false ->
  segments 0 (p ++ s)
  = (map Plain (list_ascii_of_string p) ++ segments 0 s)%list.
Proof.
  induction p as [|c p IH]; intros s H; [reflexivity|].
  cbn [contains] in H. apply orb_false_iff in H. destruct H as [Hc Hp].
  cbn [append segments list_ascii_of_string map app].
  rewrite Hc. now rewrite IH.
Qed.

Lemma toBacktick_body (a : string) : forall r,
  contains backtick a = false ->
  toBacktick (a ++ String backtick r) = Some a.
Proof.
  induction a as [|c a IH]; intros r H.
  - cbn [append toBacktick]. now rewrite Ascii.eqb_refl.
  - cbn [contains] in H. apply orb_false_iff in H. destruct H as [Hc Ha].
    cbn [append toBacktick]. now rewrite Hc, IH.
Qed.

Lemma toBacktick_none (s : string) :
  contains backtick s = false -> toBacktick s = None.
Proof.
  induction s as [|c s IH]; [reflexivity|].
  cbn [contains toBacktick]. intros H.
  apply orb_false_iff in H. destruct H as [Hc Hs]. now rewrite Hc, IH.
Qed.

Lemma segments_skip (u : string) : forall s,
  segments (String.length u) (u ++ s) = segments 0 s.
Proof.
  induction u as [|c u IH]; intros s; [reflexivity|].
  cbn [String.length append segments]. apply IH.
Qed.

(** A match. *)
Lemma segments_code (a r : string) :
  a <> EmptyString -> contains backtick a = false ->
  segments 0 (String backtick (a ++ String backtick r))
  = InlineCode a :: segments 0 r.
Proof.
  intros Hne Ha. cbn [segments]. rewrite Ascii.eqb_refl.
  rewrite (toBacktick_body a r Ha).
  destruct a as [|x a']; [contradiction|]. f_equal.
  replace (String.length a' + 2)%nat
    with (String.length (String x a' ++ String backtick EmptyString)).
  - rewrite <- (segments_skip (String x a' ++ String backtick EmptyString) r).
    now rewrite append_assoc.
  - clear. cbn [append String.length]. f_equal.
    induction a' as [|c a' IH]; [reflexivity|].
    cbn [append String.length]. rewrite IH. lia.
Qed.

Lemma toBacktick_clean (s : string) : forall body,
  toBacktick s = Some body -> contains backtick body = false.
Proof.
  induction s as [|c s IH]; intros body H; [discriminate|].
  cbn [toBacktick] in H. destruct (Ascii.eqb c backtick) eqn:Hc.
  - injection H as <-. reflexivity.
  - destruct (toBacktick s) as [b|]; [|discriminate]. injection H as <-.
    cbn [contains]. now rewrite Hc, (IH b eq_refl).
Qed.

Lemma segments_codes_clean (s : string) : forall skip,
  Forall (fun code => code <> EmptyString /\ contains backtick code = false)
         (flat_map groupOf (segments skip s)).
Proof.
  induction s as [|c s IH]; intros skip; [constructor|].
  cbn [segments]. destruct skip as [|k]; [|apply IH].
  destruct (Ascii.eqb c backtick); [|apply IH].
  destruct (toBacktick s) as [[|a body]|] eqn:Hb; try apply IH.
  cbn [flat_map groupOf app]. constructor; [|apply IH].
  split; [discriminate|]. now apply (toBacktick_clean s).
Qed.

Lemma replaceMatches_plain (ph p : string) (l : list Segment) :
  replaceMatches ph (map Plain (list_ascii_of_string p) ++ l)%list
  = p ++ replaceMatches ph l.
Proof.
  induction p as [|c p IH]; [reflexivity|].
  cbn [list_ascii_of_string map app replaceMatches append]. now rewrite IH.
Qed.

Lemma groups_plain (p : string) (l : list Segment) :
  flat_map groupOf (map Plain (list_ascii_of_string p) ++ l)%list
  = flat_map groupOf l.
Proof.
  induction p as [|c p IH]; [reflexivity|].
  cbn [list_ascii_of_string map app flat_map groupOf]. exact IH.
Qed.

Lemma groups_plain_only (p : string) :
  flat_map groupOf (map Plain (list_ascii_of_string p)) = [].
Proof.
  rewrite <- (app_nil_r (map Plain (list_ascii_of_string p))).
  now rewrite groups_plain.
Qed.

Lemma replaceMatches_plain_only (ph p : string) :
  replaceMatches ph (map Plain (list_ascii_of_string p)) = p.
Proof.
  rewrite <- (app_nil_r (map Plain (list_ascii_of_string p))).
  rewrite replaceMatches_plain. apply append_nil_r.
Qed.

Lemma segments_plain_only (p : string) :
  contains backtick p = false ->
  segments 0 p = map Plain (list_ascii_of_string p).
Proof.
  intros H. rewrite <- (append_nil_r p) at 1.
  rewrite (segments_plain p "" H). apply app_nil_r.
Qed.

(** An unclosed backtick. *)
Lemma segments_open (post : string) :
  contains backtick post = false ->
  segments 0 (String backtick post)
  = Plain backtick :: map Plain (list_ascii_of_string post).
Proof.
  intros H. cbn [segments]. rewrite Ascii.eqb_refl, (toBacktick_none _ H).
  now rewrite (segments_plain_only post H).
Qed.

(** X18: a text without a backtick, or with one backtick only, has no
    inline code: [extractInlineCodes] returns it as it is, with no code. *)
Theorem X18_no_inline_code pre post :
  contains backtick pre = false ->
  contains backtick post = false ->
  extractInlineCodes pre = mkInlineCodeMatch pre [] /\
  extractInlineCodes (pre ++ String backtick post)
  = mkInlineCodeMatch (pre ++ String backtick post) [].
Proof.
  intros Hpre Hpost. unfold extractInlineCodes. cbn zeta. split.
  - rewrite (segments_plain_only pre Hpre).
    now rewrite groups_plain_only, replaceMatches_plain_only.
  - rewrite (segments_plain pre _ Hpre), (segments_open post Hpost).
    rewrite groups_plain, replaceMatches_plain.
    cbn [flat_map groupOf app replaceMatches].
    now rewrite groups_plain_only, replaceMatches_plain_only.
Qed.

Lemma X18_no_inline_code_witness :
  extractInlineCodes "3 < 4" = mkInlineCodeMatch "3 < 4" [] /\
  extractInlineCodes ("3 < 4" ++ String backtick " and 5")
  = mkInlineCodeMatch ("3 < 4" ++ String backtick " and 5") [].
Proof.
  apply (X18_no_inline_code "3 < 4" " and 5"); reflexivity.
Defined.

(** X19: in a text with two inline codes both are replaced by the same
    placeholder, the one with the number of the last code: the text that
    [extractInlineCodes] returns does not tell the place of the first code
    from the place of the second. *)
Theorem X19_same_placeholder pre a mid b post :
  contains backtick pre = false -> contains backtick mid = false ->
  contains backtick post = false ->
  a <> EmptyString -> contains backtick a = false ->
  b <> EmptyString -> contains backtick b = false ->
  extractInlineCodes
    (pre ++ String backtick (a ++ String backtick
       (mid ++ String backtick (b ++ String backtick post))))
  = mkInlineCodeMatch
      (pre ++ inlinePlaceholder 1 ++ mid ++ inlinePlaceholder 1 ++ post)
      [a; b].
Proof.
  intros Hpre Hmid Hpost Ha Hac Hb Hbc. unfold extractInlineCodes. cbn zeta.
  rewrite (segments_plain pre _ Hpre), (segments_code a _ Ha Hac).
  rewrite (segments_plain mid _ Hmid), (segments_code b _ Hb Hbc).
  rewrite (segments_plain_only post Hpost).
  rewrite !groups_plain. cbn [flat_map groupOf app].
  rewrite !groups_plain. cbn [flat_map groupOf app].
  rewrite groups_plain_only. cbn [List.length Nat.sub].
  rewrite replaceMatches_plain. cbn [replaceMatches].
  rewrite replaceMatches_plain. cbn [replaceMatches].
  now rewrite replaceMatches_plain_only.
Qed.

Lemma X19_same_placeholder_witness :
  extractInlineCodes
    ("run " ++ String backtick ("ls" ++ String backtick
       (" then " ++ String backtick ("pwd" ++ String backtick "."))))
  = mkInlineCodeMatch
      ("run " ++ inlinePlaceholder 1 ++ " then " ++ inlinePlaceholder 1 ++ ".")
      ["ls"; "pwd"].
Proof.
  apply (X19_same_placeholder "run " "ls" " then " "pwd" ".");
    try reflexivity; discriminate.
Defined.

(** X20: every code that [extractInlineCodes] returns is a text that is not
    empty and has no backtick. *)
Theorem X20_codes_clean text :
  Forall (fun code => code <> EmptyString /\ contains backtick code = false)
         (ic_codes (extractInlineCodes text)).
Proof.
  unfold extractInlineCodes. cbn [ic_codes]. apply segments_codes_clean.
Qed.

(** ** The padding of a payload *)

(** X21: the padding that [extractQwenAccountID] adds and its decoding undo
    the standard encoding without padding: they give back the bytes that
    were encoded, whatever their number. *)
Theorem X21_padding_round_trip bs :
  Forall inRange bs ->
  Base64.DecodeString Base64.StdEncoding
    (addPadding (Base64.EncodeToString rawStd bs)) = Some bs.
Proof.
  intros H. rewrite addPadding_encode. now apply decode_encode_std.
Qed.

Lemma X21_padding_round_trip_witness :
  Base64.DecodeString Base64.StdEncoding
    (addPadding (Base64.EncodeToString rawStd [104; 105])) = Some [104; 105].
Proof.
  apply (X21_padding_round_trip [104; 105]).
  repeat constructor; unfold inRange; lia.
Defined.
